(** * Active-array bookkeeping of [pyvista.core.dataset.DataSet]

    A shallow embedding of the active scalars / vectors / tensors registry
    of [src/pyvista/core/dataset.py]: the [ActiveArrayInfo] record, the
    lazily resolving property getters, the three setters, [rename_array],
    [array_names] and [copy_meta_from].

    A Python method that mutates [self] and may raise becomes a function
    [DataSet -> Result A]: the result carries the dataset as the call left
    it, also when the call raised, since Python does not roll mutations back
    when an exception propagates. *)

From Stdlib Require Import String List ZArith Bool Lia Permutation.
Import ListNotations.
Open Scope string_scope.

(** ** Data model *)

(** [pyvista.utilities.FieldAssociation]; the integer values are the ones
    the source converts to in [ActiveArrayInfo.__eq__]. *)
Inductive FieldAssociation : Type := POINT | CELL | NONE.

Definition FieldAssociation_value (f : FieldAssociation) : Z :=
  match f with POINT => 0 | CELL => 1 | NONE => 2 end%Z.

(** [class ActiveArrayInfo]: [__init__] stores the two fields. *)
Record ActiveArrayInfo : Type := mkActiveArrayInfo {
  association : FieldAssociation;
  name : option string
}.

Definition option_string_eqb (a b : option string) : bool :=
  match a, b with
  | Some x, Some y => String.eqb x y
  | None, None => true
  | _, _ => false
  end.

(** [ActiveArrayInfo.__eq__]. *)
Definition ActiveArrayInfo_eq (a b : ActiveArrayInfo) : bool :=
  option_string_eqb (name a) (name b)
  && Z.eqb (FieldAssociation_value (association a))
           (FieldAssociation_value (association b)).

(** Backing data of one array. *)
Definition Array : Type := list Z.

(** The three attribute roles of a native attribute table. *)
Inductive AttributeType : Type := SCALARS | VECTORS | TENSORS.

(** One native attribute table ([GetPointData()], [GetCellData()],
    [GetFieldData()]): the named arrays in iteration order and, per role,
    the active pointer. *)
Record DataSetAttributes : Type := mkAttributes {
  arrays : list (string * Array);
  ActiveScalars : option string;
  ActiveVectors : option string;
  ActiveTensors : option string
}.

(** An opaque texture resource. *)
Inductive Texture : Type := mkTexture (pixels : list Z).

(** The dataset: the three native tables and the attributes that
    [DataSet.__init__] creates. *)
Record DataSet : Type := mkDataSet {
  PointData : DataSetAttributes;
  CellData : DataSetAttributes;
  FieldData : DataSetAttributes;
  _last_active_scalars_name : option string;
  _active_scalars_info : ActiveArrayInfo;
  _active_vectors_info : ActiveArrayInfo;
  _active_tensors_info : ActiveArrayInfo;
  _textures : list (string * Texture)
}.

(** [DataSet.__init__] over given native tables. *)
Definition DataSet_init (p c f : DataSetAttributes) : DataSet :=
  mkDataSet p c f None
            (mkActiveArrayInfo POINT None)
            (mkActiveArrayInfo POINT None)
            (mkActiveArrayInfo POINT None)
            [].

(** Attribute assignments [self.x = v]. *)
Definition set_PointData (t : DataSetAttributes) (s : DataSet) : DataSet :=
  mkDataSet t (CellData s) (FieldData s) (_last_active_scalars_name s)
            (_active_scalars_info s) (_active_vectors_info s)
            (_active_tensors_info s) (_textures s).

Definition set_CellData (t : DataSetAttributes) (s : DataSet) : DataSet :=
  mkDataSet (PointData s) t (FieldData s) (_last_active_scalars_name s)
            (_active_scalars_info s) (_active_vectors_info s)
            (_active_tensors_info s) (_textures s).

Definition set_FieldData (t : DataSetAttributes) (s : DataSet) : DataSet :=
  mkDataSet (PointData s) (CellData s) t (_last_active_scalars_name s)
            (_active_scalars_info s) (_active_vectors_info s)
            (_active_tensors_info s) (_textures s).

Definition set_last_active_scalars_name (n : option string) (s : DataSet)
  : DataSet :=
  mkDataSet (PointData s) (CellData s) (FieldData s) n
            (_active_scalars_info s) (_active_vectors_info s)
            (_active_tensors_info s) (_textures s).

Definition set_active_scalars_info (i : ActiveArrayInfo) (s : DataSet)
  : DataSet :=
  mkDataSet (PointData s) (CellData s) (FieldData s)
            (_last_active_scalars_name s) i (_active_vectors_info s)
            (_active_tensors_info s) (_textures s).

Definition set_active_vectors_info (i : ActiveArrayInfo) (s : DataSet)
  : DataSet :=
  mkDataSet (PointData s) (CellData s) (FieldData s)
            (_last_active_scalars_name s) (_active_scalars_info s) i
            (_active_tensors_info s) (_textures s).

Definition set_active_tensors_info (i : ActiveArrayInfo) (s : DataSet)
  : DataSet :=
  mkDataSet (PointData s) (CellData s) (FieldData s)
            (_last_active_scalars_name s) (_active_scalars_info s)
            (_active_vectors_info s) i (_textures s).

Definition set_textures (t : list (string * Texture)) (s : DataSet)
  : DataSet :=
  mkDataSet (PointData s) (CellData s) (FieldData s)
            (_last_active_scalars_name s) (_active_scalars_info s)
            (_active_vectors_info s) (_active_tensors_info s) t.

(** ** Errors and the state-and-exception monad *)

(** The three failures of the registry.  In the source they are
    [KeyError('Data array (..) not present in this dataset.')],
    [ValueError('Data field (..) not usable')] and
    [ValueError('Data field (..) could not be set as the active ..')]. *)
Inductive Error : Type :=
| ArrayNotFound (key : string)
| InvalidField (field : FieldAssociation)
| ActivationError (field : FieldAssociation).

Inductive Result (A : Type) : Type :=
| Ok (a : A) (s : DataSet)
| Raise (e : Error) (s : DataSet).
Arguments Ok {A} a s.
Arguments Raise {A} e s.

Definition M (A : Type) : Type := DataSet -> Result A.

Definition ret {A} (a : A) : M A := fun s => Ok a s.

Definition raise {A} (e : Error) : M A := fun s => Raise e s.

Definition bind {A B} (m : M A) (k : A -> M B) : M B :=
  fun s => match m s with
           | Ok a s' => k a s'
           | Raise e s' => Raise e s'
           end.

Definition modify (f : DataSet -> DataSet) : M unit := fun s => Ok tt (f s).

Definition gets {A} (f : DataSet -> A) : M A := fun s => Ok (f s) s.

Notation "x <- c1 ;; c2" := (bind c1 (fun x => c2))
  (at level 61, c1 at next level, right associativity).
Notation "c1 ;;; c2" := (bind c1 (fun _ => c2))
  (at level 61, right associativity).

(** The dataset a call leaves behind, whether it returned or raised. *)
Definition final_state {A} (r : Result A) : DataSet :=
  match r with Ok _ s => s | Raise _ s => s end.

(** ** The attribute tables *)

(** Python's [x in names] for a string [x]. *)
Definition in_list (x : string) (l : list string) : bool :=
  existsb (String.eqb x) l.

(** Python's [x in names] where [x] may be [None]: [None] is never a member
    of a collection of strings. *)
Definition in_opt (x : option string) (l : list string) : bool :=
  match x with Some n => in_list n l | None => false end.

Definition is_None {A} (x : option A) : bool :=
  match x with None => true | Some _ => false end.

(** [DataSetAttributes.keys()] and iteration over a table. *)
Definition keys (t : DataSetAttributes) : list string := map fst (arrays t).

Fixpoint lookup (key : string) (l : list (string * Array)) : option Array :=
  match l with
  | [] => None
  | (k, v) :: r => if String.eqb k key then Some v else lookup key r
  end.

Fixpoint assoc_set (key : string) (v : Array) (l : list (string * Array))
  : list (string * Array) :=
  match l with
  | [] => [(key, v)]
  | (k, x) :: r =>
      if String.eqb k key then (k, v) :: r else (k, x) :: assoc_set key v r
  end.

Definition assoc_remove (key : string) (l : list (string * Array))
  : list (string * Array) :=
  filter (fun kv => negb (String.eqb (fst kv) key)) l.

Definition set_arrays (l : list (string * Array)) (t : DataSetAttributes)
  : DataSetAttributes :=
  mkAttributes l (ActiveScalars t) (ActiveVectors t) (ActiveTensors t).

Definition set_pointer (ty : AttributeType) (n : option string)
           (t : DataSetAttributes) : DataSetAttributes :=
  match ty with
  | SCALARS => mkAttributes (arrays t) n (ActiveVectors t) (ActiveTensors t)
  | VECTORS => mkAttributes (arrays t) (ActiveScalars t) n (ActiveTensors t)
  | TENSORS => mkAttributes (arrays t) (ActiveScalars t) (ActiveVectors t) n
  end.

Definition pointer (ty : AttributeType) (t : DataSetAttributes)
  : option string :=
  match ty with
  | SCALARS => ActiveScalars t
  | VECTORS => ActiveVectors t
  | TENSORS => ActiveTensors t
  end.

(** A pointer that names [key] is dropped, any other is kept. *)
Definition drop_pointer (key : string) (p : option string) : option string :=
  match p with
  | Some n => if String.eqb n key then None else Some n
  | None => None
  end.

(** Modelled from the spec: [DataSetAttributes.__setitem__]
    (pyvista/core/datasetattributes.py is not under src/).  The tables are
    mappings with ordered iteration in insertion order: an existing name
    keeps its place and gets the new array, a new name goes last. *)
Definition setitem (key : string) (v : Array) (t : DataSetAttributes)
  : DataSetAttributes :=
  set_arrays (assoc_set key v (arrays t)) t.

(** Modelled from the spec: [DataSetAttributes.pop]
    (pyvista/core/datasetattributes.py is not under src/).  Deleting a name
    returns its array; an active pointer must reference an array of its
    table or be in the no-active-array state, so a pointer to the deleted
    name is dropped.  [None] stands for the [KeyError] of a missing name. *)
Definition pop (key : string) (t : DataSetAttributes)
  : option (Array * DataSetAttributes) :=
  match lookup key (arrays t) with
  | None => None
  | Some a =>
      Some (a, mkAttributes (assoc_remove key (arrays t))
                            (drop_pointer key (ActiveScalars t))
                            (drop_pointer key (ActiveVectors t))
                            (drop_pointer key (ActiveTensors t)))
  end.

(** The table of an association: [self.point_arrays], [self.cell_arrays],
    [self.field_arrays]. *)
Definition attributes (a : FieldAssociation) (s : DataSet)
  : DataSetAttributes :=
  match a with
  | POINT => PointData s
  | CELL => CellData s
  | NONE => FieldData s
  end.

Definition set_attributes (a : FieldAssociation) (t : DataSetAttributes)
           (s : DataSet) : DataSet :=
  match a with
  | POINT => set_PointData t s
  | CELL => set_CellData t s
  | NONE => set_FieldData t s
  end.

(** Modelled from the spec: the [DataSetAttributes.active_scalars] setter
    (pyvista/core/datasetattributes.py is not under src/), which records the
    name on the per-association active-scalar pointer. *)
Definition write_active_scalars (a : FieldAssociation) (n : string)
           (s : DataSet) : DataSet :=
  set_attributes a (set_pointer SCALARS (Some n) (attributes a s)) s.

(** Modelled from the spec: [pyvista.utilities.get_array] called with
    [info=True] (pyvista/utilities/helpers.py is not under src/).  The name
    is searched in the point, cell and field tables; [preference] breaks the
    tie when the name is in more than one table; a name in no table is
    [ArrayNotFound].  When the preferred table does not hold the name, the
    tables are tried in the order point, cell, field. *)
Definition get_array (key : string) (preference : FieldAssociation)
  : M (Array * FieldAssociation) :=
  fun s =>
    match lookup key (arrays (attributes preference s)) with
    | Some arr => Ok (arr, preference) s
    | None =>
        match lookup key (arrays (PointData s)),
              lookup key (arrays (CellData s)),
              lookup key (arrays (FieldData s)) with
        | Some arr, _, _ => Ok (arr, POINT) s
        | None, Some arr, _ => Ok (arr, CELL) s
        | None, None, Some arr => Ok (arr, NONE) s
        | None, None, None => Raise (ArrayNotFound key) s
        end
    end.

(** Modelled from the spec: [Texture.copy] (the texture class is not under
    src/): a copy is a texture with the same content. *)
Definition Texture_copy (t : Texture) : Texture :=
  match t with mkTexture px => mkTexture px end.

(** The reserved names of [active_scalars_info]. *)
Definition exclude : list string :=
  ["__custom_rgba"; "Normals"; "vtkOriginalPointIds"; "TCoords"].

(** [next((arr for arr in attributes if arr not in exclude), None)]. *)
Definition first_arr (t : DataSetAttributes) : option string :=
  find (fun arr => negb (in_list arr exclude)) (keys t).

(** ** The registry operations *)

Section Registry.

(** The status the native table answers when asked to make the array
    [key] the active one of role [ty] (spec: [apply_active], negative
    means rejected).  The native library is outside the repository, so the
    development is parametric in it. *)
Variable apply_status : AttributeType -> DataSetAttributes -> string -> Z.

(** Modelled from the spec: the native [SetActiveScalars(name)],
    [SetActiveVectors(name)] and [SetActiveTensors(name)] of a table
    (VTK is not under src/).  [None] clears the pointer; a name is recorded
    on the pointer unless the table rejects it with a negative status. *)
Definition SetActiveAttribute (ty : AttributeType) (a : FieldAssociation)
           (n : option string) : M Z :=
  fun s =>
    let t := attributes a s in
    match n with
    | None => Ok (-1)%Z (set_attributes a (set_pointer ty None t) s)
    | Some key =>
        let r := apply_status ty t key in
        if (r <? 0)%Z then Ok r s
        else Ok r (set_attributes a (set_pointer ty (Some key) t) s)
    end.

(** The [for attributes in (self.point_arrays, self.cell_arrays)] loop of
    [active_scalars_info]; [None] is the loop running to its [else]. *)
Fixpoint scan_tables (tables : list FieldAssociation) (s : DataSet)
  : option DataSet :=
  match tables with
  | [] => None
  | a :: rest =>
      match first_arr (attributes a s) with
      | Some arr =>
          Some (write_active_scalars a arr
                  (set_active_scalars_info (mkActiveArrayInfo a (Some arr)) s))
      | None => scan_tables rest s
      end
  end.

(** The name [active_scalars_info] looks up: a recorded reserved name is
    replaced by [_last_active_scalars_name]. *)
Definition substituted_name (s : DataSet) : option string :=
  if in_opt (name (_active_scalars_info s)) exclude
  then _last_active_scalars_name s
  else name (_active_scalars_info s).

Definition all_arrays (s : DataSet) : list string :=
  (keys (PointData s) ++ keys (CellData s))%list.

(** The condition [name is None or name not in all_arrays]. *)
Definition needs_resolution (s : DataSet) : bool :=
  is_None (substituted_name s)
  || negb (in_opt (substituted_name s) (all_arrays s)).

(** [DataSet.active_scalars_info] (property getter). *)
Definition active_scalars_info : M ActiveArrayInfo :=
  fun s =>
    let field := association (_active_scalars_info s) in
    let s' :=
      if needs_resolution s then
        match scan_tables [POINT; CELL] s with
        | Some s1 => s1
        | None => set_active_scalars_info (mkActiveArrayInfo field None) s
        end
      else s in
    Ok (_active_scalars_info s') s'.

(** [DataSet.active_scalars_name] (property getter). *)
Definition active_scalars_name : M (option string) :=
  i <- active_scalars_info ;; ret (name i).

(** [DataSet.active_tensors_info]. *)
Definition active_tensors_info : M ActiveArrayInfo :=
  gets _active_tensors_info.

(** [DataSet.set_active_scalars]. *)
Definition set_active_scalars (n : option string)
           (preference : FieldAssociation) : M unit :=
  match n with
  | None =>
      SetActiveAttribute SCALARS CELL None ;;;
      SetActiveAttribute SCALARS POINT None ;;;
      ret tt
  | Some key =>
      af <- get_array key preference ;;
      let field := snd af in
      i <- active_scalars_info ;;
      modify (set_last_active_scalars_name (name i)) ;;;
      r <- match field with
           | POINT => SetActiveAttribute SCALARS POINT (Some key)
           | CELL => SetActiveAttribute SCALARS CELL (Some key)
           | NONE => raise (InvalidField field)
           end ;;
      if (r <? 0)%Z then raise (ActivationError field)
      else modify (set_active_scalars_info (mkActiveArrayInfo field (Some key)))
  end.

(** The body shared by [set_active_vectors] and [set_active_tensors], which
    differ in the native call and in the record they assign. *)
Definition set_active_role (ty : AttributeType)
           (record : ActiveArrayInfo -> DataSet -> DataSet)
           (n : option string) (preference : FieldAssociation) : M unit :=
  field <- match n with
           | None =>
               SetActiveAttribute ty CELL None ;;;
               SetActiveAttribute ty POINT None ;;;
               ret POINT
           | Some key =>
               af <- get_array key preference ;;
               let field := snd af in
               r <- match field with
                    | POINT => SetActiveAttribute ty POINT (Some key)
                    | CELL => SetActiveAttribute ty CELL (Some key)
                    | NONE => raise (InvalidField field)
                    end ;;
               if (r <? 0)%Z then raise (ActivationError field)
               else ret field
           end ;;
  modify (record (mkActiveArrayInfo field n)).

(** [DataSet.set_active_vectors]. *)
Definition set_active_vectors : option string -> FieldAssociation -> M unit :=
  set_active_role VECTORS set_active_vectors_info.

(** [DataSet.set_active_tensors]. *)
Definition set_active_tensors : option string -> FieldAssociation -> M unit :=
  set_active_role TENSORS set_active_tensors_info.

(** [names.remove(x); names.insert(0, x)] under [try/except ValueError]:
    the first occurrence moves to the front, a missing [x] changes
    nothing. *)
Fixpoint remove_first (x : string) (l : list string) : list string :=
  match l with
  | [] => []
  | y :: r => if String.eqb y x then r else y :: remove_first x r
  end.

Definition move_to_front (x : option string) (names : list string)
  : list string :=
  match x with
  | Some n => if in_list n names then n :: remove_first n names else names
  | None => names
  end.

(** [DataSet.array_names] (property getter).  The source evaluates
    [self.active_scalars_name] once for [remove] and once more for [insert];
    the second evaluation returns the same name and changes nothing
    ([active_scalars_info_idempotent] below), so one evaluation stands for
    both. *)
Definition array_names : M (list string) :=
  names <- gets (fun s => (keys (FieldData s) ++ keys (PointData s)
                           ++ keys (CellData s))%list) ;;
  n <- active_scalars_name ;;
  ret (move_to_front n names).

(** [DataSet.active_vectors_info] (property getter). *)
Definition active_vectors_info : M ActiveArrayInfo :=
  i <- gets _active_vectors_info ;;
  (if is_None (name i) then
     names <- array_names ;;
     if in_list "Normals" names
     then set_active_vectors (Some "Normals") POINT
     else ret tt
   else ret tt) ;;;
  gets _active_vectors_info.

(** [self.<table>[new_name] = self.<table>.pop(old_name)]. *)
Definition move_array (a : FieldAssociation) (old_name new_name : string)
  : M unit :=
  fun s =>
    match pop old_name (attributes a s) with
    | None => Raise (ArrayNotFound old_name) s
    | Some (arr, t) => Ok tt (set_attributes a (setitem new_name arr t) s)
    end.

(** [DataSet.rename_array]. *)
Definition rename_array (old_name new_name : string)
           (preference : FieldAssociation) : M unit :=
  af <- get_array old_name preference ;;
  let field := snd af in
  n <- active_scalars_name ;;
  let was_active := option_string_eqb n (Some old_name) in
  move_array field old_name new_name ;;;
  if was_active then set_active_scalars (Some new_name) field else ret tt.

(** [DataSet.clear_textures]. *)
Definition clear_textures : M unit := modify (set_textures []).

(** ** Two datasets at once

    [copy_meta_from] reads one dataset and writes another, and the two may
    be the same object; datasets therefore live in a store addressed by
    object identity. *)
Definition Heap : Type := nat -> DataSet.

Definition upd (i : nat) (d : DataSet) (h : Heap) : Heap :=
  fun j => if Nat.eqb j i then d else h j.

Inductive HResult (A : Type) : Type :=
| HOk (a : A) (h : Heap)
| HRaise (e : Error) (h : Heap).
Arguments HOk {A} a h.
Arguments HRaise {A} e h.

Definition HM (A : Type) : Type := Heap -> HResult A.

Definition hbind {A B} (m : HM A) (k : A -> HM B) : HM B :=
  fun h => match m h with
           | HOk a h' => k a h'
           | HRaise e h' => HRaise e h'
           end.

(** A method call on the object [i]. *)
Definition on {A} (i : nat) (m : M A) : HM A :=
  fun h => match m (h i) with
           | Ok a s => HOk a (upd i s h)
           | Raise e s => HRaise e (upd i s h)
           end.

Definition hfinal {A} (r : HResult A) : Heap :=
  match r with HOk _ h => h | HRaise _ h => h end.

Definition copy_textures (t : list (string * Texture))
  : list (string * Texture) :=
  map (fun nt => (fst nt, Texture_copy (snd nt))) t.

(** [DataSet.copy_meta_from]. *)
Definition copy_meta_from (self ido : nat) : HM unit :=
  hbind (on ido active_scalars_info) (fun asi =>
  hbind (on self (modify (set_active_scalars_info asi))) (fun _ =>
  hbind (on ido active_vectors_info) (fun avi =>
  hbind (on self (modify (set_active_vectors_info avi))) (fun _ =>
  hbind (on self clear_textures) (fun _ =>
  hbind (on ido (gets _textures)) (fun tex =>
  on self (modify (set_textures (copy_textures tex))))))))).

End Registry.

Arguments HOk {A} a h.
Arguments HRaise {A} e h.

(** ** Concrete native tables, for evaluating the operations *)

(** A native library that accepts every activation. *)
Definition accept_all : AttributeType -> DataSetAttributes -> string -> Z :=
  fun _ _ _ => 0%Z.

(** A native library whose tables reject the array [bad] and accept every
    other one. *)
Definition reject (bad : string)
  : AttributeType -> DataSetAttributes -> string -> Z :=
  fun _ _ key => if String.eqb key bad then (-1)%Z else 0%Z.

(** A native library whose tables accept the arrays they hold and reject
    every other name. *)
Definition accept_held : AttributeType -> DataSetAttributes -> string -> Z :=
  fun _ t key => if in_list key (keys t) then 0%Z else (-1)%Z.

(** A table holding the given arrays with no active pointer. *)
Definition table (l : list (string * Array)) : DataSetAttributes :=
  mkAttributes l None None None.

(** ** Vocabulary of the statements, and concrete datasets *)

(** A name is reserved when it belongs to [exclude]. *)
Definition reserved (x : string) : Prop := In x exclude.

(** [a] is the first name of [l] that is not reserved. *)
Definition first_unreserved (l : list string) (a : string) : Prop :=
  exists pre post,
    l = (pre ++ a :: post)%list /\ ~ reserved a /\
    forall x, In x pre -> reserved x.

Definition all_reserved (l : list string) : Prop :=
  forall x, In x l -> reserved x.

(** The condition under which [active_scalars_info] scans the tables, in
    terms of the tables' names. *)
Definition stale (s : DataSet) : Prop :=
  match substituted_name s with
  | None => True
  | Some n => ~ In n (keys (PointData s) ++ keys (CellData s))%list
  end.

(** Two datasets that differ at most in the active-scalars record and the
    active-scalar pointers: what lazy resolution may touch. *)
Definition same_but_scalars (s s' : DataSet) : Prop :=
  (forall a, arrays (attributes a s') = arrays (attributes a s)) /\
  (forall a, ActiveVectors (attributes a s') = ActiveVectors (attributes a s)) /\
  (forall a, ActiveTensors (attributes a s') = ActiveTensors (attributes a s)) /\
  _last_active_scalars_name s' = _last_active_scalars_name s /\
  _active_vectors_info s' = _active_vectors_info s /\
  _active_tensors_info s' = _active_tensors_info s /\
  _textures s' = _textures s.

(** The dataset as the scalars getter leaves it.  [set_active_scalars] and,
    through [array_names], the vectors getter evaluate that getter before
    they call the native table, so this is the dataset whose table is asked
    to accept a name. *)
Definition after_scalars_getter (s : DataSet) : DataSet :=
  final_state (active_scalars_info s).

(** The dataset after [GetCellData().SetActiveX(None)] followed by
    [GetPointData().SetActiveX(None)]. *)
Definition cleared (ty : AttributeType) (s : DataSet) : DataSet :=
  let s1 := set_attributes CELL (set_pointer ty None (attributes CELL s)) s in
  set_attributes POINT (set_pointer ty None (attributes POINT s1)) s1.

(** C2 as stated, at one dataset: after [set_active_scalars(None)] both
    active-scalar pointers are cleared, no table entry is changed and
    [active_scalars_info] returns [(POINT, None)]. *)
Definition C2_as_stated
           (apply_status : AttributeType -> DataSetAttributes -> string -> Z)
           (s : DataSet) : Prop :=
  exists s1 s2,
    set_active_scalars apply_status None CELL s = Ok tt s1 /\
    ActiveScalars (PointData s1) = None /\
    ActiveScalars (CellData s1) = None /\
    (forall a, arrays (attributes a s1) = arrays (attributes a s)) /\
    active_scalars_info s1 = Ok (mkActiveArrayInfo POINT None) s2.

(** A freshly constructed dataset with one point array ["a"]. *)
Definition one_point_array : DataSet :=
  DataSet_init (table [("a", [1; 2]%Z)]) (table []) (table []).

(** A freshly constructed dataset whose only array is the reserved
    texture-coordinate array. *)
Definition only_tcoords : DataSet :=
  DataSet_init (table [("TCoords", [0; 1]%Z)]) (table []) (table []).

(** A dataset whose point table holds the reserved names ["TCoords"] and
    ["Normals"] only, on which ["TCoords"] was activated by name. *)
Definition reserved_active : DataSet :=
  mkDataSet
    (mkAttributes [("TCoords", [0]%Z); ("Normals", [1]%Z)]
                  (Some "TCoords") None None)
    (table []) (table [])
    (Some "TCoords")
    (mkActiveArrayInfo POINT (Some "TCoords"))
    (mkActiveArrayInfo POINT None)
    (mkActiveArrayInfo POINT None)
    [].

(** A dataset with the point array ["a"] and the cell array ["c"], on which
    ["c"] was activated by name. *)
Definition cell_active : DataSet :=
  mkDataSet (mkAttributes [("a", [1]%Z)] (Some "a") None None)
            (mkAttributes [("c", [1]%Z)] (Some "c") None None)
            (table [])
            (Some "a")
            (mkActiveArrayInfo CELL (Some "c"))
            (mkActiveArrayInfo POINT None)
            (mkActiveArrayInfo POINT None)
            [].

(** The dataset [set_active_scalars] leaves when the table accepts. *)
Definition activated (field : FieldAssociation) (key : string)
           (i : ActiveArrayInfo) (s1 : DataSet) : DataSet :=
  set_active_scalars_info (mkActiveArrayInfo field (Some key))
    (set_attributes field
       (set_pointer SCALARS (Some key) (attributes field s1))
       (set_last_active_scalars_name (name i) s1)).

(** C6 as stated, at one call: when the name resolves to a point or cell
    array and the table answers a negative status, the call raises
    [ActivationError] and leaves the dataset as it was. *)
Definition C6_as_stated
           (apply_status : AttributeType -> DataSetAttributes -> string -> Z)
           (key : string) (p : FieldAssociation) (s : DataSet) : Prop :=
  forall arr field,
    get_array key p s = Ok (arr, field) s ->
    field <> NONE ->
    (apply_status SCALARS (attributes field s) key < 0)%Z ->
    set_active_scalars apply_status (Some key) p s =
      Raise (ActivationError field) s.

(** A dataset with the point arrays ["b"] and ["a"] whose active scalars
    were resolved to ["b"] by the getter. *)
Definition resolved_b : DataSet :=
  mkDataSet (mkAttributes [("b", [1]%Z); ("a", [2]%Z)] (Some "b") None None)
            (table []) (table [])
            None
            (mkActiveArrayInfo POINT (Some "b"))
            (mkActiveArrayInfo POINT None)
            (mkActiveArrayInfo POINT None)
            [].

(** The array list of a table after [table[new] = table.pop(old)]. *)
Definition moved (old_name new_name : string) (arr : Array)
           (l : list (string * Array)) : list (string * Array) :=
  assoc_set new_name arr (assoc_remove old_name l).

(** [one_point_array] after [rename_array('a', 'TCoords')]. *)
Definition renamed_to_tcoords : DataSet :=
  mkDataSet (mkAttributes [("TCoords", [1; 2]%Z)] (Some "TCoords") None None)
            (table []) (table [])
            None
            (mkActiveArrayInfo POINT (Some "TCoords"))
            (mkActiveArrayInfo POINT None)
            (mkActiveArrayInfo POINT None)
            [].

(** The names of all three tables, as [array_names] collects them. *)
Definition table_names (s : DataSet) : list string :=
  (keys (FieldData s) ++ keys (PointData s) ++ keys (CellData s))%list.

(** The dataset [set_active_vectors] leaves when the table accepts. *)
Definition vectors_activated (field : FieldAssociation) (key : string)
           (s : DataSet) : DataSet :=
  set_active_vectors_info (mkActiveArrayInfo field (Some key))
    (set_attributes field
       (set_pointer VECTORS (Some key) (attributes field s)) s).

(** A freshly constructed dataset whose only array is the cell array
    ["Normals"]. *)
Definition cell_normals : DataSet :=
  DataSet_init (table []) (table [("Normals", [0; 0; 1]%Z)]) (table []).

(** A freshly constructed dataset with the point arrays ["Normals"] and
    ["a"]. *)
Definition point_normals : DataSet :=
  DataSet_init (table [("Normals", [0; 0; 1]%Z); ("a", [5]%Z)])
               (table []) (table []).

(** What the vectors setter and getter never touch. *)
Definition same_meta (s s' : DataSet) : Prop :=
  _active_scalars_info s' = _active_scalars_info s /\
  _active_tensors_info s' = _active_tensors_info s /\
  _textures s' = _textures s.

(** A dataset on which the scalars getter has nothing left to do. *)
Definition resolved (s : DataSet) : Prop :=
  active_scalars_info s = Ok (_active_scalars_info s) s.

(** Two datasets: object 0 records active tensors and owns a texture,
    object 1 holds the point arrays ["Normals"] and ["a"] and another
    texture. *)
Definition two_datasets : Heap :=
  fun j =>
    if Nat.eqb j 0
    then mkDataSet (table [("t", [9]%Z)]) (table []) (table [])
                   None
                   (mkActiveArrayInfo POINT None)
                   (mkActiveArrayInfo POINT None)
                   (mkActiveArrayInfo POINT (Some "t"))
                   [("old", mkTexture [1]%Z)]
    else set_textures [("tex", mkTexture [7]%Z)] point_normals.

(** ** Further operations of [dataset.py] *)

(** *** Pickling of [ActiveArrayInfo] *)

(** The state dictionary of [__getstate__]: the instance's attributes with
    the association replaced by its integer value. *)
Record PickleState : Type := mkPickleState {
  state_association : Z;
  state_name : option string
}.

(** [FieldAssociation(value)]: the member with that value; [None] stands
    for the [ValueError] of a value that no member has. *)
Definition FieldAssociation_of_value (v : Z) : option FieldAssociation :=
  if Z.eqb v 0 then Some POINT
  else if Z.eqb v 1 then Some CELL
  else if Z.eqb v 2 then Some NONE
  else None.

(** [ActiveArrayInfo.__getstate__]. *)
Definition ActiveArrayInfo_getstate (i : ActiveArrayInfo) : PickleState :=
  mkPickleState (FieldAssociation_value (association i)) (name i).

(** [ActiveArrayInfo.__setstate__]. *)
Definition ActiveArrayInfo_setstate (st : PickleState)
  : option ActiveArrayInfo :=
  match FieldAssociation_of_value (state_association st) with
  | Some f => Some (mkActiveArrayInfo f (state_name st))
  | None => None
  end.

(** *** The active arrays *)

(** Modelled from the spec: [DataSetAttributes.__getitem__]
    (pyvista/core/datasetattributes.py is not under src/): the table's get,
    a [KeyError] for a key that names no array.  The callers below turn that
    [KeyError] into [None], which is what [None] stands for here. *)
Definition table_get (key : option string) (t : DataSetAttributes)
  : option Array :=
  match key with
  | Some k => lookup k (arrays t)
  | None => None
  end.

(** The [try: ... except KeyError: return None] body shared by
    [active_scalars], [active_vectors] and [active_tensors]. *)
Definition active_array (i : ActiveArrayInfo) (s : DataSet) : option Array :=
  match association i with
  | POINT => table_get (name i) (PointData s)
  | CELL => table_get (name i) (CellData s)
  | NONE => None
  end.

(** [DataSet.active_scalars] (property getter). *)
Definition active_scalars : M (option Array) :=
  i <- active_scalars_info ;; gets (active_array i).

(** [DataSet.active_vectors] (property getter). *)
Definition active_vectors
           (apply_status : AttributeType -> DataSetAttributes -> string -> Z)
  : M (option Array) :=
  i <- active_vectors_info apply_status ;; gets (active_array i).

(** [DataSet.active_tensors] (property getter). *)
Definition active_tensors : M (option Array) :=
  i <- active_tensors_info ;; gets (active_array i).

(** Modelled from the spec: the native [GetNumberOfArrays()] of a table
    (VTK is not under src/): the number of arrays the table holds. *)
Definition GetNumberOfArrays (t : DataSetAttributes) : nat :=
  length (arrays t).

(** [DataSet.n_arrays] (property getter). *)
Definition n_arrays (s : DataSet) : nat :=
  GetNumberOfArrays (PointData s) + GetNumberOfArrays (CellData s)
  + GetNumberOfArrays (FieldData s).

(** *** Clearing the tables *)

(** Modelled from the doctest of [clear_point_arrays] in dataset.py:
    [DataSetAttributes.clear] (pyvista/core/datasetattributes.py is not under
    src/) leaves [keys()] empty; with no array left no pointer names one. *)
Definition clear_table (t : DataSetAttributes) : DataSetAttributes :=
  mkAttributes [] None None None.

(** [DataSet.clear_point_arrays]. *)
Definition clear_point_arrays : M unit :=
  modify (fun s => set_PointData (clear_table (PointData s)) s).

(** [DataSet.clear_cell_arrays]. *)
Definition clear_cell_arrays : M unit :=
  modify (fun s => set_CellData (clear_table (CellData s)) s).

(** Modelled from the doctest of [clear_arrays]: [clear_field_arrays]
    (pyvista/core/dataobject.py is not under src/) empties the field
    table. *)
Definition clear_field_arrays : M unit :=
  modify (fun s => set_FieldData (clear_table (FieldData s)) s).

(** [DataSet.clear_arrays]. *)
Definition clear_arrays : M unit :=
  clear_point_arrays ;;; clear_cell_arrays ;;; clear_field_arrays.

(** *** Item access *)

(** The exceptions of the item operations, next to those of the registry:
    [TypeError('Empty array unable to be added.')], the [ValueError] of
    [raise_not_matching], [KeyError('Index (..) not understood. ..')], and
    the [ValueError] Python raises when [name, preference = tuple(index)]
    unpacks a tuple that has not two elements. *)
Inductive Exn : Type :=
| RegistryError (e : Error)
| TypeError_empty_array
| ValueError_not_matching
| KeyError_index_not_understood
| ValueError_unpack.

Inductive Outcome (A : Type) : Type :=
| Returned (a : A) (s : DataSet)
| Thrown (x : Exn) (s : DataSet).
Arguments Returned {A} a s.
Arguments Thrown {A} x s.

Definition lift {A} (m : M A) : DataSet -> Outcome A :=
  fun s => match m s with
           | Ok a s' => Returned a s'
           | Raise e s' => Thrown (RegistryError e) s'
           end.

(** [DataSet.get_array]: the search of [get_array] with [err=True],
    returning the array alone ([info=False]). *)
Definition DataSet_get_array (key : string) (preference : FieldAssociation)
  : M Array :=
  af <- get_array key preference ;; ret (fst af).

(** The index of [mesh[index]]: a string; an iterable that is no string and
    yields a name and a preference; an iterable that is no string and yields
    another number of elements, which the unpacking refuses; or an object
    that is neither a string nor iterable. *)
Inductive Index : Type :=
| IndexName (key : string)
| IndexPair (key : string) (preference : FieldAssociation)
| IndexIterable (n_elements : nat)
| IndexOther.

(** [DataSet.__getitem__]. *)
Definition DataSet_getitem (index : Index) : DataSet -> Outcome Array :=
  match index with
  | IndexPair key preference => lift (DataSet_get_array key preference)
  | IndexName key => lift (DataSet_get_array key CELL)
  | IndexIterable _ => fun s => Thrown ValueError_unpack s
  | IndexOther => fun s => Thrown KeyError_index_not_understood s
  end.

(** [DataSet.__setitem__].  [n_points] and [n_cells] are the counts the
    native dataset reports; [scalars.shape[0]] is the length of the
    array. *)
Definition DataSet_setitem (n_points n_cells : nat) (key : string)
           (scalars : option Array) : DataSet -> Outcome unit :=
  fun s =>
    match scalars with
    | None => Thrown TypeError_empty_array s
    | Some arr =>
        if Nat.eqb (length arr) n_points
        then Returned tt (set_PointData (setitem key arr (PointData s)) s)
        else if Nat.eqb (length arr) n_cells
        then Returned tt (set_CellData (setitem key arr (CellData s)) s)
        else Thrown ValueError_not_matching s
    end.

(** *** Textures *)

(** The [name] argument of [_activate_texture]: [True], an integer or a
    string.  [False] is the integer 0. *)
Inductive TextureName : Type :=
| NameTrue
| NameInt (idx : Z)
| NameStr (key : string).

(** Python's [keys[idx]]: a negative index counts from the end; [None] is
    the [IndexError]. *)
Definition py_index {A} (l : list A) (idx : Z) : option A :=
  if (0 <=? idx)%Z then nth_error l (Z.to_nat idx)
  else if (0 <=? Z.of_nat (length l) + idx)%Z
       then nth_error l (Z.to_nat (Z.of_nat (length l) + idx))
       else None.

Fixpoint texture_lookup (key : string) (l : list (string * Texture))
  : option Texture :=
  match l with
  | [] => None
  | (k, v) :: r => if String.eqb k key then Some v else texture_lookup key r
  end.

(** The first part of [_activate_texture]: the name a [True] or an integer
    stands for; [None] is the [IndexError] branch. *)
Definition texture_key (name : TextureName) (textures : list (string * Texture))
  : option string :=
  match name with
  | NameStr key => Some key
  | NameTrue => py_index (map fst textures) 0
  | NameInt n =>
      let keys := map fst textures in
      let idx := if (Z.of_nat (length keys) <? n)%Z then 0%Z else n in
      py_index keys idx
  end.

Section Textures.

(** The native exchange of the active texture coordinates
    ([GetTCoords], [SetTCoords], [AddArray], [Modified]) for the point array
    of the given name; it lies outside the repository. *)
Variable swap_tcoords : string -> DataSet -> DataSet.

(** [DataSet._activate_texture]. *)
Definition _activate_texture (name : TextureName) : M (option Texture) :=
  fun s =>
    match texture_key name (_textures s) with
    | None => Ok None s
    | Some key =>
        match texture_lookup key (_textures s) with
        | None => Ok None s
        | Some texture =>
            (names <- array_names ;;
             (if in_list key names then modify (swap_tcoords key)
              else ret tt) ;;;
             ret (Some texture)) s
        end
    end.

End Textures.

(** *** Vocabulary and concrete datasets for the further operations *)

(** Point and cell arrays of one name ["x"], the point one active. *)
Definition shared_name : DataSet :=
  mkDataSet (mkAttributes [("x", [1]%Z)] (Some "x") None None)
            (table [("x", [2]%Z)]) (table [])
            None
            (mkActiveArrayInfo POINT (Some "x"))
            (mkActiveArrayInfo POINT None)
            (mkActiveArrayInfo POINT None)
            [].

(** The dataset [set_active_vectors] or [set_active_tensors] leaves when the
    table accepts. *)
Definition role_activated (ty : AttributeType)
           (record : ActiveArrayInfo -> DataSet -> DataSet)
           (field : FieldAssociation) (key : string) (s : DataSet) : DataSet :=
  record (mkActiveArrayInfo field (Some key))
    (set_attributes field
       (set_pointer ty (Some key) (attributes field s)) s).

(** The dataset after [clear_arrays]. *)
Definition arrays_cleared (s : DataSet) : DataSet :=
  set_FieldData (clear_table (FieldData s))
    (set_CellData (clear_table (CellData s))
       (set_PointData (clear_table (PointData s)) s)).

(** A point array and a field array of one name ["a"], the point one
    active. *)
Definition point_and_field : DataSet :=
  mkDataSet (mkAttributes [("a", [1]%Z)] (Some "a") None None)
            (table []) (table [("a", [9]%Z)])
            None
            (mkActiveArrayInfo POINT (Some "a"))
            (mkActiveArrayInfo POINT None)
            (mkActiveArrayInfo POINT None)
            [].

(** The native exchange of texture coordinates, for evaluating
    [_activate_texture]: here it leaves the dataset alone. *)
Definition no_swap : string -> DataSet -> DataSet := fun _ s => s.

(** A dataset with two textures and no array. *)
Definition two_textures : DataSet :=
  set_textures [("t0", mkTexture [1]%Z); ("t1", mkTexture [2]%Z)]
               (DataSet_init (table []) (table []) (table [])).

(** The destination after a [copy_meta_from] that returned: built from the
    source's last state [s3] when the dataset copies from itself, from the
    destination's own state otherwise. *)
Definition meta_copied (self ido : nat) (asi avi : ActiveArrayInfo)
           (s3 d : DataSet) : DataSet :=
  if Nat.eqb self ido
  then set_textures [] (set_active_vectors_info avi s3)
  else set_textures (_textures s3)
         (set_active_vectors_info avi (set_active_scalars_info asi d)).

(** * Properties *)

(** ** Equality of infos *)

(** [ActiveArrayInfo.__eq__] holds exactly of equal records, so the
    statements below compare infos with [=]. *)
Lemma ActiveArrayInfo_eq_spec (a b : ActiveArrayInfo) :
  ActiveArrayInfo_eq a b = true <-> a = b.
Proof.
  destruct a as [fa na], b as [fb nb]. unfold ActiveArrayInfo_eq.
  cbn [name association]. rewrite andb_true_iff, Z.eqb_eq. split.
  - intros [Hn Hf].
    assert (fa = fb) as -> by (destruct fa, fb; cbn in Hf; congruence).
    destruct na as [x|], nb as [y|]; cbn in Hn; try discriminate.
    + apply String.eqb_eq in Hn. now subst.
    + reflexivity.
  - intros [= -> ->]. split; [| reflexivity].
    destruct nb as [y|]; cbn; [apply String.eqb_refl | reflexivity].
Qed.

(** ** Membership and table scanning *)

Lemma in_list_In (x : string) (l : list string) :
  in_list x l = true <-> In x l.
Proof.
  unfold in_list. rewrite existsb_exists. split.
  - intros [y [Hy He]]. apply String.eqb_eq in He. now subst.
  - intros H. exists x. split; [assumption | apply String.eqb_refl].
Qed.

Lemma in_list_not_In (x : string) (l : list string) :
  in_list x l = false <-> ~ In x l.
Proof.
  rewrite <- in_list_In. destruct (in_list x l); split; congruence.
Qed.

Lemma find_unreserved_Some (l : list string) (a : string) :
  find (fun arr => negb (in_list arr exclude)) l = Some a <->
  first_unreserved l a.
Proof.
  unfold first_unreserved.
  induction l as [|y l IH]; cbn [find].
  - split; [discriminate |].
    intros (pre & post & H & _). destruct pre; discriminate.
  - destruct (in_list y exclude) eqn:E; cbn [negb].
    + rewrite IH. split.
      * intros (pre & post & -> & Ha & Hpre).
        exists (y :: pre), post. repeat split; auto.
        intros x [<- | Hx]; [now apply in_list_In | now apply Hpre].
      * intros (pre & post & Hl & Ha & Hpre).
        destruct pre as [|z pre]; simpl in Hl; injection Hl as -> ->.
        -- exfalso. apply Ha. now apply in_list_In.
        -- exists pre, post. repeat split; auto.
           intros x Hx. apply Hpre. now right.
    + split.
      * intros [= ->]. exists [], l. repeat split.
        -- now apply in_list_not_In.
        -- intros x [].
      * intros (pre & post & Hl & Ha & Hpre).
        destruct pre as [|z pre]; simpl in Hl; injection Hl as -> ->.
        -- reflexivity.
        -- exfalso. apply in_list_not_In in E. apply E, Hpre. now left.
Qed.

Lemma find_unreserved_None (l : list string) :
  find (fun arr => negb (in_list arr exclude)) l = None <-> all_reserved l.
Proof.
  unfold all_reserved.
  induction l as [|y l IH]; cbn [find].
  - split; [intros _ x [] | reflexivity].
  - destruct (in_list y exclude) eqn:E; cbn [negb].
    + rewrite IH. split.
      * intros H x [<- | Hx]; [now apply in_list_In | now apply H].
      * intros H x Hx. apply H. now right.
    + split; [discriminate |].
      intros H. apply in_list_not_In in E. exfalso. apply E, H. now left.
Qed.

Lemma first_arr_Some (t : DataSetAttributes) (a : string) :
  first_arr t = Some a <-> first_unreserved (keys t) a.
Proof. apply find_unreserved_Some. Qed.

Lemma first_arr_None (t : DataSetAttributes) :
  first_arr t = None <-> all_reserved (keys t).
Proof. apply find_unreserved_None. Qed.

Lemma needs_resolution_stale (s : DataSet) :
  needs_resolution s = true <-> stale s.
Proof.
  unfold needs_resolution, stale, all_arrays.
  destruct (substituted_name s) as [n|]; simpl.
  - rewrite negb_true_iff. apply in_list_not_In.
  - tauto.
Qed.

Lemma needs_resolution_fresh (s : DataSet) :
  needs_resolution s = false <->
  exists n, substituted_name s = Some n /\
            In n (keys (PointData s) ++ keys (CellData s))%list.
Proof.
  unfold needs_resolution, all_arrays.
  destruct (substituted_name s) as [n|]; simpl.
  - rewrite negb_false_iff, in_list_In. split.
    + intros H. now exists n.
    + now intros (m & [= <-] & H).
  - split; [discriminate | now intros (m & H & _)].
Qed.

(** The outcome of the resolving branch of [active_scalars_info]. *)
Lemma active_scalars_info_stale (s : DataSet) :
  needs_resolution s = true ->
  active_scalars_info s =
    match first_arr (PointData s) with
    | Some a =>
        Ok (mkActiveArrayInfo POINT (Some a))
           (write_active_scalars POINT a
              (set_active_scalars_info (mkActiveArrayInfo POINT (Some a)) s))
    | None =>
        match first_arr (CellData s) with
        | Some a =>
            Ok (mkActiveArrayInfo CELL (Some a))
               (write_active_scalars CELL a
                  (set_active_scalars_info (mkActiveArrayInfo CELL (Some a)) s))
        | None =>
            let i := mkActiveArrayInfo (association (_active_scalars_info s))
                                       None in
            Ok i (set_active_scalars_info i s)
        end
    end.
Proof.
  intros H. unfold active_scalars_info. rewrite H. simpl.
  destruct (first_arr (PointData s)); [reflexivity |].
  destruct (first_arr (CellData s)); reflexivity.
Qed.

Lemma active_scalars_info_fresh (s : DataSet) :
  needs_resolution s = false ->
  active_scalars_info s = Ok (_active_scalars_info s) s.
Proof.
  intros H. unfold active_scalars_info. now rewrite H.
Qed.

(** ** C1: the fallback scan of [active_scalars_info] *)

(** C1.  When the recorded active-scalars name, after the substitution of a
    reserved name, is absent or in neither the point nor the cell table,
    [active_scalars_info] takes the first unreserved name of the point table,
    else the first unreserved name of the cell table, in table order, and
    records it in [_active_scalars_info] and on the active-scalar pointer of
    that table; with no unreserved name in either table it returns a name of
    [None] with the association recorded before. *)
Theorem C1_fallback_scan (s : DataSet) :
  stale s ->
  (forall a, first_unreserved (keys (PointData s)) a ->
     exists s',
       active_scalars_info s = Ok (mkActiveArrayInfo POINT (Some a)) s' /\
       _active_scalars_info s' = mkActiveArrayInfo POINT (Some a) /\
       ActiveScalars (PointData s') = Some a) /\
  (all_reserved (keys (PointData s)) ->
   forall a, first_unreserved (keys (CellData s)) a ->
     exists s',
       active_scalars_info s = Ok (mkActiveArrayInfo CELL (Some a)) s' /\
       _active_scalars_info s' = mkActiveArrayInfo CELL (Some a) /\
       ActiveScalars (CellData s') = Some a) /\
  (all_reserved (keys (PointData s)) ->
   all_reserved (keys (CellData s)) ->
     exists s',
       active_scalars_info s =
         Ok (mkActiveArrayInfo (association (_active_scalars_info s)) None) s' /\
       _active_scalars_info s' =
         mkActiveArrayInfo (association (_active_scalars_info s)) None).
Proof.
  intros Hs. apply needs_resolution_stale in Hs.
  rewrite (active_scalars_info_stale s Hs).
  repeat split.
  - intros a Ha. apply first_arr_Some in Ha. rewrite Ha.
    eexists. repeat split.
  - intros Hp a Ha. apply first_arr_None in Hp. apply first_arr_Some in Ha.
    rewrite Hp, Ha. eexists. repeat split.
  - intros Hp Hc. apply first_arr_None in Hp. apply first_arr_None in Hc.
    rewrite Hp, Hc. eexists. repeat split.
Qed.

(** The scan is exhaustive: a list of names has a first unreserved name or
    holds reserved names only. *)
Lemma first_unreserved_or_all_reserved (l : list string) :
  (exists a, first_unreserved l a) \/ all_reserved l.
Proof.
  destruct (find (fun arr => negb (in_list arr exclude)) l) as [a|] eqn:E.
  - left. exists a. now apply find_unreserved_Some.
  - right. now apply find_unreserved_None.
Qed.

Lemma C1_fallback_scan_witness :
  let s := mkDataSet (table [("TCoords", [1]); ("p", [2])]%Z)
                     (table [("c", [3])]%Z) (table [])
                     None (mkActiveArrayInfo CELL (Some "gone"))
                     (mkActiveArrayInfo POINT None)
                     (mkActiveArrayInfo POINT None) [] in
  stale s /\
  exists s',
    active_scalars_info s = Ok (mkActiveArrayInfo POINT (Some "p")) s' /\
    _active_scalars_info s' = mkActiveArrayInfo POINT (Some "p") /\
    ActiveScalars (PointData s') = Some "p".
Proof.
  intros s.
  assert (Hs : stale s).
  { apply needs_resolution_stale. reflexivity. }
  split; [exact Hs |].
  apply (proj1 (C1_fallback_scan s Hs)).
  exists ["TCoords"], []. repeat split.
  - unfold reserved. rewrite <- in_list_In. discriminate.
  - intros x [<- | []]. unfold reserved. apply in_list_In. reflexivity.
Defined.

(** ** What the scalars getter leaves alone, and its idempotence *)

Lemma same_but_scalars_refl (s : DataSet) : same_but_scalars s s.
Proof. repeat split. Qed.

Lemma same_but_scalars_write (a : FieldAssociation) (n : string)
      (i : ActiveArrayInfo) (s : DataSet) :
  same_but_scalars s (write_active_scalars a n (set_active_scalars_info i s)).
Proof.
  destruct a; repeat split; intros []; reflexivity.
Qed.

Lemma active_scalars_info_spec (s : DataSet) :
  exists i s',
    active_scalars_info s = Ok i s' /\ _active_scalars_info s' = i /\
    same_but_scalars s s'.
Proof.
  destruct (needs_resolution s) eqn:E.
  - rewrite (active_scalars_info_stale s E).
    destruct (first_arr (PointData s)) as [a|].
    { do 2 eexists. repeat split; try reflexivity.
      all: intros []; reflexivity. }
    destruct (first_arr (CellData s)) as [a|].
    { do 2 eexists. repeat split; try reflexivity.
      all: intros []; reflexivity. }
    do 2 eexists. repeat split; try reflexivity.
    all: intros []; reflexivity.
  - rewrite (active_scalars_info_fresh s E).
    do 2 eexists. repeat split.
Qed.

Lemma first_unreserved_not_reserved (l : list string) (a : string) :
  first_unreserved l a -> ~ reserved a /\ In a l.
Proof.
  intros (pre & post & -> & Ha & _). split; [assumption |].
  apply in_or_app. right. now left.
Qed.

Lemma in_opt_exclude_false (a : string) :
  ~ reserved a -> in_opt (Some a) exclude = false.
Proof. intros H. unfold in_opt. now apply in_list_not_In. Qed.

(** A dataset whose record names an unreserved array of the recorded
    table is resolved: the getter returns the record and changes nothing. *)
Lemma recorded_present_fresh (s : DataSet) (f : FieldAssociation)
      (a : string) :
  _active_scalars_info s = mkActiveArrayInfo f (Some a) ->
  ~ reserved a ->
  In a (keys (PointData s) ++ keys (CellData s))%list ->
  needs_resolution s = false.
Proof.
  intros Hr Ha Hin. apply needs_resolution_fresh. exists a. split; [|exact Hin].
  unfold substituted_name. rewrite Hr. cbn [name].
  now rewrite (in_opt_exclude_false a Ha).
Qed.

(** Evaluating the getter a second time returns the same info and leaves
    the dataset as the first evaluation left it. *)
Lemma active_scalars_info_idempotent (s s' : DataSet) (i : ActiveArrayInfo) :
  active_scalars_info s = Ok i s' -> active_scalars_info s' = Ok i s'.
Proof.
  destruct (needs_resolution s) eqn:E.
  - rewrite (active_scalars_info_stale s E).
    destruct (first_arr (PointData s)) as [a|] eqn:Ep.
    { intros [= <- <-]. apply first_arr_Some in Ep.
      destruct (first_unreserved_not_reserved _ _ Ep) as [Ha Hin].
      rewrite active_scalars_info_fresh; [reflexivity |].
      apply (recorded_present_fresh _ POINT a); [reflexivity | assumption |].
      apply in_or_app. left. exact Hin. }
    destruct (first_arr (CellData s)) as [a|] eqn:Ec.
    { intros [= <- <-]. apply first_arr_Some in Ec.
      destruct (first_unreserved_not_reserved _ _ Ec) as [Ha Hin].
      rewrite active_scalars_info_fresh; [reflexivity |].
      apply (recorded_present_fresh _ CELL a); [reflexivity | assumption |].
      apply in_or_app. right. exact Hin. }
    intros [= <- <-].
    rewrite active_scalars_info_stale by reflexivity.
    cbn [PointData CellData set_active_scalars_info].
    rewrite Ep, Ec. reflexivity.
  - rewrite (active_scalars_info_fresh s E). intros [= <- <-].
    now apply active_scalars_info_fresh.
Qed.

(** ** Clearing: [set_active_scalars(None)] and its siblings *)

Section Clearing.

Variable apply_status : AttributeType -> DataSetAttributes -> string -> Z.

Lemma set_active_scalars_None (p : FieldAssociation) (s : DataSet) :
  set_active_scalars apply_status None p s = Ok tt (cleared SCALARS s).
Proof. reflexivity. Qed.

Lemma set_active_vectors_None (p : FieldAssociation) (s : DataSet) :
  set_active_vectors apply_status None p s =
  Ok tt (set_active_vectors_info (mkActiveArrayInfo POINT None)
           (cleared VECTORS s)).
Proof. reflexivity. Qed.

Lemma set_active_tensors_None (p : FieldAssociation) (s : DataSet) :
  set_active_tensors apply_status None p s =
  Ok tt (set_active_tensors_info (mkActiveArrayInfo POINT None)
           (cleared TENSORS s)).
Proof. reflexivity. Qed.

Lemma cleared_arrays (ty : AttributeType) (a : FieldAssociation)
      (s : DataSet) :
  arrays (attributes a (cleared ty s)) = arrays (attributes a s).
Proof. destruct ty, a; reflexivity. Qed.

Lemma cleared_pointer (ty : AttributeType) (s : DataSet) :
  pointer ty (PointData (cleared ty s)) = None /\
  pointer ty (CellData (cleared ty s)) = None.
Proof. destruct ty; split; reflexivity. Qed.

Lemma cleared_needs_resolution (s : DataSet) :
  needs_resolution (cleared SCALARS s) = needs_resolution s.
Proof. reflexivity. Qed.

End Clearing.

(** ** C2: clearing the active scalars *)

(** C2 fails on [one_point_array]: after the clearing call the getter
    resolves to the point array ["a"] instead of returning a name of
    [None]. *)
Lemma C2_counterexample :
  (exists s1 s2,
     set_active_scalars accept_all None CELL one_point_array = Ok tt s1 /\
     active_scalars_info s1 = Ok (mkActiveArrayInfo POINT (Some "a")) s2) /\
  ~ C2_as_stated accept_all one_point_array.
Proof.
  split.
  - do 2 eexists. split; reflexivity.
  - intros (s1 & s2 & H1 & _ & _ & _ & H2).
    rewrite set_active_scalars_None in H1. injection H1 as <-.
    vm_compute in H2. discriminate.
Qed.

(** C2, amended.  [set_active_scalars(None)] clears the active-scalar pointer
    of the point and of the cell table and changes no entry of any array
    table; when the dataset records no active scalars (association POINT,
    name [None]) and neither table holds an unreserved array, the following
    [active_scalars_info] returns association POINT with name [None] and
    again changes no table entry. *)
Theorem C2_clear_scalars
        (apply_status : AttributeType -> DataSetAttributes -> string -> Z)
        (p : FieldAssociation) (s : DataSet) :
  exists s1,
    set_active_scalars apply_status None p s = Ok tt s1 /\
    ActiveScalars (PointData s1) = None /\
    ActiveScalars (CellData s1) = None /\
    (forall a, arrays (attributes a s1) = arrays (attributes a s)) /\
    (_active_scalars_info s = mkActiveArrayInfo POINT None ->
     all_reserved (keys (PointData s)) ->
     all_reserved (keys (CellData s)) ->
     exists s2,
       active_scalars_info s1 = Ok (mkActiveArrayInfo POINT None) s2 /\
       forall a, arrays (attributes a s2) = arrays (attributes a s)).
Proof.
  exists (cleared SCALARS s). rewrite set_active_scalars_None.
  repeat split.
  - intros a. apply cleared_arrays.
  - intros Hr Hp Hc.
    assert (E : needs_resolution (cleared SCALARS s) = true).
    { rewrite cleared_needs_resolution. unfold needs_resolution,
        substituted_name. rewrite Hr. reflexivity. }
    rewrite (active_scalars_info_stale _ E).
    apply first_arr_None in Hp. apply first_arr_None in Hc.
    change (first_arr (PointData (cleared SCALARS s)))
      with (first_arr (PointData s)).
    change (first_arr (CellData (cleared SCALARS s)))
      with (first_arr (CellData s)).
    rewrite Hp, Hc.
    change (_active_scalars_info (cleared SCALARS s))
      with (_active_scalars_info s).
    rewrite Hr. eexists. split; [reflexivity |].
    intros []; reflexivity.
Qed.

Lemma all_reserved_dec (l : list string) :
  forallb (fun x => in_list x exclude) l = true -> all_reserved l.
Proof.
  intros H x Hx. rewrite forallb_forall in H.
  apply in_list_In. now apply H.
Qed.

Lemma C2_clear_scalars_witness :
  exists s1,
    set_active_scalars accept_all None CELL only_tcoords = Ok tt s1 /\
    exists s2,
      active_scalars_info s1 = Ok (mkActiveArrayInfo POINT None) s2 /\
      forall a, arrays (attributes a s2) = arrays (attributes a only_tcoords).
Proof.
  destruct (C2_clear_scalars accept_all CELL only_tcoords)
    as (s1 & H1 & _ & _ & _ & H2).
  exists s1. split; [exact H1 |].
  apply H2.
  - reflexivity.
  - apply all_reserved_dec. reflexivity.
  - apply all_reserved_dec. reflexivity.
Defined.

(** ** C9: clearing vectors and tensors resets the record, clearing scalars
    does not *)

(** C9.  [set_active_vectors(None)] and [set_active_tensors(None)] return
    with the corresponding record reset to association POINT, name [None];
    [set_active_scalars(None)] returns with the active-scalars record, and
    the last-active name, as they were. *)
Theorem C9_clear_resets_vectors_tensors_only
        (apply_status : AttributeType -> DataSetAttributes -> string -> Z)
        (p : FieldAssociation) (s : DataSet) :
  (exists s',
     set_active_vectors apply_status None p s = Ok tt s' /\
     _active_vectors_info s' = mkActiveArrayInfo POINT None) /\
  (exists s',
     set_active_tensors apply_status None p s = Ok tt s' /\
     _active_tensors_info s' = mkActiveArrayInfo POINT None) /\
  (exists s',
     set_active_scalars apply_status None p s = Ok tt s' /\
     _active_scalars_info s' = _active_scalars_info s /\
     _last_active_scalars_name s' = _last_active_scalars_name s).
Proof.
  repeat split; eexists; repeat split.
Qed.

(** ** C3: reserved names *)

(** [reserved_active] arises from a freshly constructed dataset by calls of
    the interface: activate ["TCoords"] twice, then rename the other array
    to a reserved name. *)
Lemma reserved_active_reachable :
  (set_active_scalars accept_all (Some "TCoords") CELL ;;;
   set_active_scalars accept_all (Some "TCoords") CELL ;;;
   rename_array accept_all "a" "Normals" CELL)
    (DataSet_init (table [("a", [1]%Z); ("TCoords", [0]%Z)])
                  (table []) (table []))
  = Ok tt reserved_active.
Proof. reflexivity. Qed.

(** C3 fails on [reserved_active]: both tables hold reserved names only,
    yet the getter returns the name ["TCoords"], because the substituted
    last-active name is itself a reserved name that is present. *)
Lemma C3_counterexample :
  all_reserved (keys (PointData reserved_active)) /\
  all_reserved (keys (CellData reserved_active)) /\
  active_scalars_info reserved_active =
    Ok (mkActiveArrayInfo POINT (Some "TCoords")) reserved_active /\
  name (mkActiveArrayInfo POINT (Some "TCoords")) <> None.
Proof.
  repeat split.
  - apply all_reserved_dec. reflexivity.
  - apply all_reserved_dec. reflexivity.
  - discriminate.
Qed.

(** C3, amended.  On a dataset whose point and cell tables hold reserved
    names only, [active_scalars_info] returns a name of [None] provided
    that, when the recorded name is reserved, the last externally set name
    is absent or names no array of the two tables.  The getter never selects
    a reserved name by itself: an info that differs from the record has no
    name or an unreserved one.  A recorded reserved name is looked up under
    the last externally set active name: when that name is in a table, the
    record is returned as it is. *)
Theorem C3_reserved_names (s : DataSet) :
  (all_reserved (keys (PointData s)) ->
   all_reserved (keys (CellData s)) ->
   (forall n, name (_active_scalars_info s) = Some n -> reserved n ->
      match _last_active_scalars_name s with
      | None => True
      | Some l => ~ In l (keys (PointData s) ++ keys (CellData s))%list
      end) ->
   exists s',
     active_scalars_info s =
       Ok (mkActiveArrayInfo (association (_active_scalars_info s)) None) s') /\
  (forall i s',
     active_scalars_info s = Ok i s' -> i <> _active_scalars_info s ->
     forall n, name i = Some n -> ~ reserved n) /\
  (forall n l,
     name (_active_scalars_info s) = Some n -> reserved n ->
     _last_active_scalars_name s = Some l ->
     In l (keys (PointData s) ++ keys (CellData s))%list ->
     active_scalars_info s = Ok (_active_scalars_info s) s).
Proof.
  repeat split.
  - intros Hp Hc Hl.
    assert (E : needs_resolution s = true).
    { apply needs_resolution_stale. unfold stale, substituted_name.
      destruct (name (_active_scalars_info s)) as [n|] eqn:En; cbn [in_opt].
      - destruct (in_list n exclude) eqn:Ex.
        + apply (Hl n eq_refl). now apply in_list_In.
        + intros Hin. apply in_list_not_In in Ex. apply Ex.
          apply in_app_or in Hin. destruct Hin; [now apply Hp | now apply Hc].
      - exact I. }
    rewrite (active_scalars_info_stale s E).
    apply first_arr_None in Hp. apply first_arr_None in Hc.
    rewrite Hp, Hc. eexists. reflexivity.
  - intros i s' H Hne n Hn.
    destruct (needs_resolution s) eqn:E.
    + rewrite (active_scalars_info_stale s E) in H.
      destruct (first_arr (PointData s)) as [a|] eqn:Ep.
      { injection H as <- _. injection Hn as <-.
        apply first_arr_Some in Ep.
        apply (first_unreserved_not_reserved _ _ Ep). }
      destruct (first_arr (CellData s)) as [a|] eqn:Ec.
      { injection H as <- _. injection Hn as <-.
        apply first_arr_Some in Ec.
        apply (first_unreserved_not_reserved _ _ Ec). }
      injection H as <- _. discriminate.
    + rewrite (active_scalars_info_fresh s E) in H.
      injection H as <- _. now contradiction Hne.
  - intros n l Hn Hr Hl Hin.
    apply active_scalars_info_fresh, needs_resolution_fresh.
    exists l. split; [| exact Hin].
    unfold substituted_name. rewrite Hn. cbn [in_opt].
    apply in_list_In in Hr. now rewrite Hr.
Qed.

Lemma C3_reserved_names_witness :
  (exists s',
     active_scalars_info only_tcoords = Ok (mkActiveArrayInfo POINT None) s') /\
  active_scalars_info reserved_active =
    Ok (_active_scalars_info reserved_active) reserved_active.
Proof.
  split.
  - apply (proj1 (C3_reserved_names only_tcoords)).
    + apply all_reserved_dec. reflexivity.
    + apply all_reserved_dec. reflexivity.
    + intros n Hn. discriminate Hn.
  - apply (proj2 (proj2 (C3_reserved_names reserved_active))
             "TCoords" "TCoords").
    + reflexivity.
    + apply in_list_In. reflexivity.
    + reflexivity.
    + apply in_list_In. reflexivity.
Defined.

(** ** C4: resolution after clearing, and its stability *)

Lemma cell_active_reachable :
  set_active_scalars accept_all (Some "c") CELL
    (DataSet_init (table [("a", [1]%Z)]) (table [("c", [1]%Z)]) (table []))
  = Ok tt cell_active.
Proof. reflexivity. Qed.

(** C4.  The code at [cell_active], a dataset whose point table holds the
    unreserved array ["a"] and nothing else: [set_active_scalars(None)]
    returns with the record [(CELL, "c")] still in place, so the getter
    evaluated after clearing returns the info of the cell array ["c"], not
    the info [(POINT, "a")] of the point array; a second evaluation returns
    the same info and changes nothing. *)
Theorem C4_clear_leaves_record :
  first_unreserved (keys (PointData cell_active)) "a" /\
  set_active_scalars accept_all None CELL cell_active =
    Ok tt (cleared SCALARS cell_active) /\
  _active_scalars_info (cleared SCALARS cell_active) =
    mkActiveArrayInfo CELL (Some "c") /\
  active_scalars_info (cleared SCALARS cell_active) =
    Ok (mkActiveArrayInfo CELL (Some "c")) (cleared SCALARS cell_active) /\
  mkActiveArrayInfo CELL (Some "c") <> mkActiveArrayInfo POINT (Some "a").
Proof.
  split; [apply find_unreserved_Some; reflexivity |].
  split; [reflexivity |]. split; [reflexivity |].
  split; [reflexivity | discriminate].
Qed.

(** Had the clearing call reset the record to [(POINT, None)], as
    [set_active_vectors(None)] and [set_active_tensors(None)] reset theirs,
    the getter after clearing would return the first unreserved point array
    on every dataset that has one, and return it again when evaluated a
    second time. *)
Lemma resolution_after_record_reset (s : DataSet) (a : string) :
  first_unreserved (keys (PointData s)) a ->
  exists s2,
    active_scalars_info
      (set_active_scalars_info (mkActiveArrayInfo POINT None)
                               (cleared SCALARS s))
    = Ok (mkActiveArrayInfo POINT (Some a)) s2 /\
    active_scalars_info s2 = Ok (mkActiveArrayInfo POINT (Some a)) s2.
Proof.
  intros Ha. apply first_arr_Some in Ha.
  set (s1 := set_active_scalars_info (mkActiveArrayInfo POINT None)
                                     (cleared SCALARS s)).
  assert (E : needs_resolution s1 = true) by reflexivity.
  pose proof (active_scalars_info_stale s1 E) as H.
  change (first_arr (PointData s1)) with (first_arr (PointData s)) in H.
  rewrite Ha in H. eexists. split; [exact H |].
  exact (active_scalars_info_idempotent _ _ _ H).
Qed.

(** ** Activation by name *)

Lemma lookup_In_keys (key : string) (l : list (string * Array)) (v : Array) :
  lookup key l = Some v -> In key (map fst l).
Proof.
  induction l as [|[k x] l IH]; cbn [lookup map fst]; [discriminate |].
  destruct (String.eqb k key) eqn:E.
  - intros _. left. now apply String.eqb_eq.
  - intros H. right. now apply IH.
Qed.

Lemma In_keys_lookup (key : string) (l : list (string * Array)) :
  In key (map fst l) -> exists v, lookup key l = Some v.
Proof.
  induction l as [|[k x] l IH]; cbn [lookup map fst]; [intros [] |].
  destruct (String.eqb k key) eqn:E.
  - intros _. now exists x.
  - intros [H | H]; [| now apply IH].
    subst. now rewrite String.eqb_refl in E.
Qed.

Lemma lookup_None_keys (key : string) (l : list (string * Array)) :
  lookup key l = None <-> ~ In key (map fst l).
Proof.
  split.
  - intros H Hin. apply In_keys_lookup in Hin as [v Hv]. congruence.
  - intros H. destruct (lookup key l) eqn:E; [| reflexivity].
    exfalso. apply H. eapply lookup_In_keys, E.
Qed.

(** [get_array] reads only, and the table it names holds the array. *)
Lemma get_array_Ok (key : string) (p : FieldAssociation) (s s' : DataSet)
      (arr : Array) (field : FieldAssociation) :
  get_array key p s = Ok (arr, field) s' ->
  s' = s /\ lookup key (arrays (attributes field s)) = Some arr.
Proof.
  unfold get_array.
  destruct (lookup key (arrays (attributes p s))) as [x|] eqn:Ep.
  { intros [= <- <- <-]. now split. }
  destruct (lookup key (arrays (PointData s))) as [x|] eqn:E1.
  { intros [= <- <- <-]. now split. }
  destruct (lookup key (arrays (CellData s))) as [x|] eqn:E2.
  { intros [= <- <- <-]. now split. }
  destruct (lookup key (arrays (FieldData s))) as [x|] eqn:E3.
  { intros [= <- <- <-]. now split. }
  discriminate.
Qed.

(** The preferred table wins whenever it holds the name. *)
Lemma get_array_preferred (key : string) (p : FieldAssociation) (s : DataSet)
      (arr : Array) :
  lookup key (arrays (attributes p s)) = Some arr ->
  get_array key p s = Ok (arr, p) s.
Proof. intros H. unfold get_array. now rewrite H. Qed.

Lemma attributes_set_last (a : FieldAssociation) (n : option string)
      (s : DataSet) :
  attributes a (set_last_active_scalars_name n s) = attributes a s.
Proof. destruct a; reflexivity. Qed.

Section Activation.

Variable apply_status : AttributeType -> DataSetAttributes -> string -> Z.

Lemma set_active_scalars_accepted (key : string) (p : FieldAssociation)
      (s s1 : DataSet) (arr : Array) (field : FieldAssociation)
      (i : ActiveArrayInfo) :
  get_array key p s = Ok (arr, field) s ->
  field <> NONE ->
  active_scalars_info s = Ok i s1 ->
  (0 <= apply_status SCALARS (attributes field s1) key)%Z ->
  set_active_scalars apply_status (Some key) p s =
    Ok tt (activated field key i s1).
Proof.
  intros Hg Hf Hi Hst. unfold set_active_scalars, bind.
  rewrite Hg. cbn [snd]. rewrite Hi. unfold modify.
  apply Z.ltb_ge in Hst.
  destruct field; [| | contradiction]; unfold SetActiveAttribute;
    rewrite attributes_set_last, Hst; cbn [negb]; rewrite Hst; reflexivity.
Qed.

Lemma set_active_scalars_rejected (key : string) (p : FieldAssociation)
      (s s1 : DataSet) (arr : Array) (field : FieldAssociation)
      (i : ActiveArrayInfo) :
  get_array key p s = Ok (arr, field) s ->
  field <> NONE ->
  active_scalars_info s = Ok i s1 ->
  (apply_status SCALARS (attributes field s1) key < 0)%Z ->
  set_active_scalars apply_status (Some key) p s =
    Raise (ActivationError field)
          (set_last_active_scalars_name (name i) s1).
Proof.
  intros Hg Hf Hi Hst. unfold set_active_scalars, bind.
  rewrite Hg. cbn [snd]. rewrite Hi. unfold modify.
  apply Z.ltb_lt in Hst.
  destruct field; [| | contradiction]; unfold SetActiveAttribute;
    rewrite attributes_set_last, Hst; rewrite Hst; reflexivity.
Qed.

End Activation.

(** ** C6: a rejected activation *)

Lemma resolved_b_reachable :
  active_scalars_info
    (DataSet_init (table [("b", [1]%Z); ("a", [2]%Z)]) (table []) (table []))
  = Ok (mkActiveArrayInfo POINT (Some "b")) resolved_b.
Proof. reflexivity. Qed.

(** C6 fails on [resolved_b] when the point table rejects ["a"]: the call
    raises [ActivationError], but the last-active name, [None] before the
    call, is ["b"] after it. *)
Lemma C6_counterexample :
  _last_active_scalars_name resolved_b = None /\
  (exists s',
     set_active_scalars (reject "a") (Some "a") CELL resolved_b =
       Raise (ActivationError POINT) s' /\
     _last_active_scalars_name s' = Some "b") /\
  ~ C6_as_stated (reject "a") "a" CELL resolved_b.
Proof.
  split; [reflexivity |]. split.
  - exists (set_last_active_scalars_name (Some "b") resolved_b).
    split; reflexivity.
  - intros H. specialize (H [2]%Z POINT eq_refl).
    assert (Hf : POINT <> NONE) by discriminate.
    specialize (H Hf). vm_compute in H.
    specialize (H eq_refl). discriminate H.
Qed.

(** C6, amended.  When the name resolves to a point or cell array and the
    table answers a negative status, [set_active_scalars] raises
    [ActivationError] at once.  The dataset is then the one that
    [active_scalars_info], evaluated by the call before the apply step, left
    behind, with the last-active name overwritten by the name of that info:
    the record is the info that getter returned and the active-scalar
    pointers are as that getter left them, no entry of an array table and
    nothing of the vectors, tensors and texture state has changed, and a
    dataset whose record needed no resolution differs from its state before
    the call in the last-active name only. *)
Theorem C6_rejected_activation
        (apply_status : AttributeType -> DataSetAttributes -> string -> Z)
        (key : string) (p : FieldAssociation) (s s1 : DataSet)
        (arr : Array) (field : FieldAssociation) (i : ActiveArrayInfo) :
  get_array key p s = Ok (arr, field) s ->
  field <> NONE ->
  active_scalars_info s = Ok i s1 ->
  (apply_status SCALARS (attributes field s1) key < 0)%Z ->
  let s' := set_last_active_scalars_name (name i) s1 in
  set_active_scalars apply_status (Some key) p s =
    Raise (ActivationError field) s' /\
  _active_scalars_info s' = i /\
  _last_active_scalars_name s' = name i /\
  (forall a, arrays (attributes a s') = arrays (attributes a s)) /\
  (forall a, ActiveScalars (attributes a s') = ActiveScalars (attributes a s1)) /\
  _active_vectors_info s' = _active_vectors_info s /\
  _active_tensors_info s' = _active_tensors_info s /\
  _textures s' = _textures s /\
  (needs_resolution s = false ->
   s' = set_last_active_scalars_name (name (_active_scalars_info s)) s).
Proof.
  intros Hg Hf Hi Hst s'.
  destruct (active_scalars_info_spec s) as (i0 & s0 & H0 & Hrec & Hsame).
  rewrite Hi in H0. injection H0 as <- <-.
  destruct Hsame as (Harr & _ & _ & _ & Hv & Ht & Htex).
  split; [now apply (set_active_scalars_rejected _ _ _ _ _ arr) |].
  split; [exact Hrec |]. split; [reflexivity |].
  split; [intros a; subst s'; rewrite attributes_set_last; apply Harr |].
  split; [intros a; subst s'; now rewrite attributes_set_last |].
  split; [exact Hv |]. split; [exact Ht |]. split; [exact Htex |].
  intros E. rewrite (active_scalars_info_fresh s E) in Hi.
  injection Hi as <- <-. reflexivity.
Qed.

Lemma C6_rejected_activation_witness :
  set_active_scalars (reject "a") (Some "a") CELL resolved_b =
    Raise (ActivationError POINT)
          (set_last_active_scalars_name (Some "b") resolved_b).
Proof.
  apply (C6_rejected_activation (reject "a") "a" CELL resolved_b resolved_b
           [2]%Z POINT (mkActiveArrayInfo POINT (Some "b"))).
  - reflexivity.
  - discriminate.
  - reflexivity.
  - reflexivity.
Defined.

(** ** Moving an array inside a table *)

Lemma lookup_assoc_set_same (key : string) (v : Array)
      (l : list (string * Array)) :
  lookup key (assoc_set key v l) = Some v.
Proof.
  induction l as [|[k x] l IH]; cbn [assoc_set lookup].
  - now rewrite String.eqb_refl.
  - destruct (String.eqb k key) eqn:E; cbn [lookup]; now rewrite E.
Qed.

Lemma lookup_assoc_set_other (key k' : string) (v : Array)
      (l : list (string * Array)) :
  k' <> key -> lookup k' (assoc_set key v l) = lookup k' l.
Proof.
  intros Hne. induction l as [|[k x] l IH]; cbn [assoc_set lookup].
  - destruct (String.eqb key k') eqn:E; [| reflexivity].
    apply String.eqb_eq in E. congruence.
  - destruct (String.eqb k key) eqn:E; cbn [lookup].
    + apply String.eqb_eq in E. subst k.
      destruct (String.eqb key k') eqn:E'; [| reflexivity].
      apply String.eqb_eq in E'. congruence.
    + now rewrite IH.
Qed.

Lemma lookup_assoc_remove_same (key : string) (l : list (string * Array)) :
  lookup key (assoc_remove key l) = None.
Proof.
  induction l as [|[k x] l IH]; cbn [assoc_remove filter lookup fst];
    [reflexivity |].
  destruct (String.eqb k key) eqn:E; cbn [negb lookup]; [exact IH |].
  rewrite E. exact IH.
Qed.

Lemma lookup_assoc_remove_other (key k' : string)
      (l : list (string * Array)) :
  k' <> key -> lookup k' (assoc_remove key l) = lookup k' l.
Proof.
  intros Hne. induction l as [|[k x] l IH];
    cbn [assoc_remove filter lookup fst]; [reflexivity |].
  destruct (String.eqb k key) eqn:E; cbn [negb lookup].
  - apply String.eqb_eq in E. subst k.
    destruct (String.eqb key k') eqn:E'; [| exact IH].
    apply String.eqb_eq in E'. congruence.
  - now rewrite <- IH.
Qed.

Lemma attributes_set_attributes (a : FieldAssociation)
      (t : DataSetAttributes) (s : DataSet) :
  attributes a (set_attributes a t s) = t.
Proof. destruct a; reflexivity. Qed.

Lemma attributes_set_attributes_other (a b : FieldAssociation)
      (t : DataSetAttributes) (s : DataSet) :
  a <> b -> attributes a (set_attributes b t s) = attributes a s.
Proof. destruct a, b; intros H; try reflexivity; now contradiction H. Qed.

Lemma move_array_Ok (a : FieldAssociation) (old_name new_name : string)
      (arr : Array) (s : DataSet) :
  lookup old_name (arrays (attributes a s)) = Some arr ->
  exists s',
    move_array a old_name new_name s = Ok tt s' /\
    arrays (attributes a s') =
      moved old_name new_name arr (arrays (attributes a s)) /\
    (forall b, b <> a -> attributes b s' = attributes b s) /\
    _active_scalars_info s' = _active_scalars_info s /\
    _last_active_scalars_name s' = _last_active_scalars_name s.
Proof.
  intros H. unfold move_array, pop. rewrite H.
  eexists. split; [reflexivity |].
  split; [now rewrite attributes_set_attributes |].
  split; [intros b Hb; now apply attributes_set_attributes_other |].
  destruct a; split; reflexivity.
Qed.

Lemma activated_arrays (field a : FieldAssociation) (key : string)
      (i : ActiveArrayInfo) (s : DataSet) :
  arrays (attributes a (activated field key i s)) = arrays (attributes a s).
Proof. destruct field, a; reflexivity. Qed.

Lemma In_keys_all_arrays (field : FieldAssociation) (key : string)
      (arr : Array) (s : DataSet) :
  field <> NONE ->
  lookup key (arrays (attributes field s)) = Some arr ->
  In key (keys (PointData s) ++ keys (CellData s))%list.
Proof.
  intros Hf H. apply lookup_In_keys in H. apply in_or_app.
  destruct field; [now left | now right | now contradiction Hf].
Qed.

(** ** C5: renaming the active scalars *)

(** C5 fails on [one_point_array], whose point array ["a"] is the active
    scalars: renamed to the reserved name ["TCoords"], the array moves, but
    the following getter returns a name of [None], not ["TCoords"]. *)
Lemma C5_counterexample :
  (exists s0,
     active_scalars_name one_point_array = Ok (Some "a") s0) /\
  rename_array accept_all "a" "TCoords" CELL one_point_array =
    Ok tt renamed_to_tcoords /\
  lookup "TCoords" (arrays (PointData renamed_to_tcoords)) = Some [1; 2]%Z /\
  active_scalars_info renamed_to_tcoords =
    Ok (mkActiveArrayInfo POINT None)
       (set_active_scalars_info (mkActiveArrayInfo POINT None)
                                renamed_to_tcoords) /\
  name (mkActiveArrayInfo POINT None) <> Some "TCoords".
Proof.
  split.
  - exists (write_active_scalars POINT "a"
              (set_active_scalars_info (mkActiveArrayInfo POINT (Some "a"))
                                       one_point_array)).
    reflexivity.
  - split; [reflexivity |]. split; [reflexivity |].
    split; [reflexivity | discriminate].
Qed.

(** C5, amended.  Let [old_name] be the active-scalars name and let it
    resolve, under the given preference, to an array of the point or cell
    table; let [new_name] be unreserved and accepted by the native table,
    that is by the resolved table as it is asked after the move.
    Then [rename_array] returns; in the resolved table [new_name] holds the
    array that [old_name] held and [old_name] is gone, every other name of
    that table and every other table are as before; and
    [active_scalars_info] afterwards returns the resolved association with
    the name [new_name]. *)
Theorem C5_rename_keeps_active
        (apply_status : AttributeType -> DataSetAttributes -> string -> Z)
        (old_name new_name : string) (p : FieldAssociation)
        (s s0 : DataSet) (arr : Array) (field : FieldAssociation)
        (i : ActiveArrayInfo) :
  get_array old_name p s = Ok (arr, field) s ->
  field <> NONE ->
  active_scalars_info s = Ok i s0 ->
  name i = Some old_name ->
  ~ reserved new_name ->
  (0 <= apply_status SCALARS
          (attributes field
             (after_scalars_getter
                (final_state (move_array field old_name new_name s0))))
          new_name)%Z ->
  exists s',
    rename_array apply_status old_name new_name p s = Ok tt s' /\
    lookup new_name (arrays (attributes field s')) = Some arr /\
    (old_name <> new_name ->
     lookup old_name (arrays (attributes field s')) = None) /\
    (forall k, k <> old_name -> k <> new_name ->
       lookup k (arrays (attributes field s')) =
       lookup k (arrays (attributes field s))) /\
    (forall a, a <> field ->
       arrays (attributes a s') = arrays (attributes a s)) /\
    exists s'',
      active_scalars_info s' =
        Ok (mkActiveArrayInfo field (Some new_name)) s''.
Proof.
  intros Hg Hf Hi Hn Hres Hacc.
  destruct (get_array_Ok _ _ _ _ _ _ Hg) as [_ Hold].
  destruct (active_scalars_info_spec s) as (i0 & s0' & H0 & _ & Hsame).
  rewrite Hi in H0. injection H0 as <- <-.
  destruct Hsame as (Harr0 & _).
  rewrite <- (Harr0 field) in Hold.
  destruct (move_array_Ok field old_name new_name arr s0 Hold)
    as (s1 & Hmove & Harr1 & Hoth1 & _).
  assert (Hnew1 : lookup new_name (arrays (attributes field s1)) = Some arr).
  { rewrite Harr1. apply lookup_assoc_set_same. }
  pose proof (get_array_preferred new_name field s1 arr Hnew1) as Hg1.
  destruct (active_scalars_info_spec s1) as (i2 & s2 & Hi2 & _ & Hsame2).
  destruct Hsame2 as (Harr2 & _).
  unfold after_scalars_getter in Hacc. rewrite Hmove in Hacc.
  cbn [final_state] in Hacc. rewrite Hi2 in Hacc. cbn [final_state] in Hacc.
  pose proof (set_active_scalars_accepted apply_status new_name field s1 s2
                arr field i2 Hg1 Hf Hi2 Hacc) as Hset.
  exists (activated field new_name i2 s2).
  assert (Harr : forall a,
             arrays (attributes a (activated field new_name i2 s2)) =
             arrays (attributes a s1)).
  { intros a. now rewrite activated_arrays, Harr2. }
  split.
  { unfold rename_array, bind, active_scalars_name. rewrite Hg. cbn [snd].
    unfold bind. rewrite Hi. unfold ret. rewrite Hn.
    cbn [option_string_eqb]. rewrite String.eqb_refl, Hmove. exact Hset. }
  split; [now rewrite Harr |].
  split.
  { intros Hne. rewrite Harr, Harr1. unfold moved.
    rewrite lookup_assoc_set_other by exact Hne.
    apply lookup_assoc_remove_same. }
  split.
  { intros k Hk1 Hk2. rewrite Harr, Harr1, Harr0. unfold moved.
    rewrite lookup_assoc_set_other by exact Hk2.
    now apply lookup_assoc_remove_other. }
  split.
  { intros a Ha. now rewrite Harr, (Hoth1 a Ha), Harr0. }
  exists (activated field new_name i2 s2).
  rewrite active_scalars_info_fresh; [reflexivity |].
  apply (recorded_present_fresh _ field new_name);
    [reflexivity | exact Hres |].
  apply (In_keys_all_arrays field new_name arr); [exact Hf |].
  now rewrite Harr.
Qed.

Lemma C5_rename_keeps_active_witness :
  exists s',
    rename_array accept_held "a" "height" CELL one_point_array = Ok tt s' /\
    lookup "height" (arrays (PointData s')) = Some [1; 2]%Z /\
    lookup "a" (arrays (PointData s')) = None /\
    exists s'',
      active_scalars_info s' =
        Ok (mkActiveArrayInfo POINT (Some "height")) s''.
Proof.
  destruct (C5_rename_keeps_active accept_held "a" "height" CELL
              one_point_array
              (write_active_scalars POINT "a"
                 (set_active_scalars_info
                    (mkActiveArrayInfo POINT (Some "a")) one_point_array))
              [1; 2]%Z POINT (mkActiveArrayInfo POINT (Some "a")))
    as (s' & H1 & H2 & H3 & _ & _ & H4).
  - reflexivity.
  - discriminate.
  - reflexivity.
  - reflexivity.
  - unfold reserved. rewrite <- in_list_In. discriminate.
  - vm_compute. discriminate.
  - exists s'. split; [exact H1 |]. split; [exact H2 |].
    split; [apply H3; discriminate | exact H4].
Defined.

(** ** The vectors getter *)

Lemma in_list_remove_first (x y : string) (l : list string) :
  x <> y -> in_list x (remove_first y l) = in_list x l.
Proof.
  intros Hne. induction l as [|z l IH]; [reflexivity |].
  cbn [remove_first]. destruct (String.eqb z y) eqn:E.
  - apply String.eqb_eq in E. subst z. unfold in_list. cbn [existsb].
    destruct (String.eqb x y) eqn:E'; [| reflexivity].
    apply String.eqb_eq in E'. congruence.
  - unfold in_list in *. cbn [existsb]. now rewrite IH.
Qed.

(** Moving the active-scalars name to the front changes no membership. *)
Lemma in_list_move_to_front (x : string) (n : option string)
      (l : list string) :
  in_list x (move_to_front n l) = in_list x l.
Proof.
  destruct n as [m|]; [| reflexivity]. cbn [move_to_front].
  destruct (in_list m l) eqn:E; [| reflexivity].
  destruct (String.eqb x m) eqn:Ex.
  - apply String.eqb_eq in Ex. subst m. rewrite E.
    unfold in_list. cbn [existsb]. now rewrite String.eqb_refl.
  - assert (Hne : x <> m).
    { intros ->. now rewrite String.eqb_refl in Ex. }
    unfold in_list at 1. cbn [existsb]. rewrite Ex. cbn [orb].
    now apply in_list_remove_first.
Qed.

Lemma array_names_spec (s : DataSet) :
  exists i s0,
    active_scalars_info s = Ok i s0 /\
    array_names s = Ok (move_to_front (name i) (table_names s)) s0 /\
    same_but_scalars s s0.
Proof.
  destruct (active_scalars_info_spec s) as (i & s0 & Hi & _ & Hsame).
  exists i, s0. split; [exact Hi |]. split; [| exact Hsame].
  unfold array_names, bind, gets, active_scalars_name, bind.
  now rewrite Hi.
Qed.

Section Vectors.

Variable apply_status : AttributeType -> DataSetAttributes -> string -> Z.

Lemma set_active_vectors_accepted (key : string) (p : FieldAssociation)
      (s : DataSet) (arr : Array) (field : FieldAssociation) :
  get_array key p s = Ok (arr, field) s ->
  field <> NONE ->
  (0 <= apply_status VECTORS (attributes field s) key)%Z ->
  set_active_vectors apply_status (Some key) p s =
    Ok tt (vectors_activated field key s).
Proof.
  intros Hg Hf Hst. unfold set_active_vectors, set_active_role, bind.
  rewrite Hg. cbn [snd]. apply Z.ltb_ge in Hst.
  destruct field; [| | contradiction]; unfold SetActiveAttribute;
    rewrite Hst; rewrite Hst; reflexivity.
Qed.

Lemma set_active_vectors_field (key : string) (p : FieldAssociation)
      (s : DataSet) (arr : Array) :
  get_array key p s = Ok (arr, NONE) s ->
  set_active_vectors apply_status (Some key) p s =
    Raise (InvalidField NONE) s.
Proof.
  intros Hg. unfold set_active_vectors, set_active_role, bind.
  now rewrite Hg.
Qed.

(** With a recorded name the getter is a plain read. *)
Lemma active_vectors_info_recorded (s : DataSet) :
  name (_active_vectors_info s) <> None ->
  active_vectors_info apply_status s = Ok (_active_vectors_info s) s.
Proof.
  intros H. unfold active_vectors_info, bind, gets.
  destruct (name (_active_vectors_info s)); [reflexivity | congruence].
Qed.

(** Without a recorded name the getter evaluates [array_names], which
    resolves the active scalars, and activates ["Normals"] when some table
    has that name. *)
Lemma active_vectors_info_unrecorded (s : DataSet) :
  name (_active_vectors_info s) = None ->
  exists i s0,
    active_scalars_info s = Ok i s0 /\ same_but_scalars s s0 /\
    active_vectors_info apply_status s =
      if in_list "Normals" (table_names s)
      then match set_active_vectors apply_status (Some "Normals") POINT s0
           with
           | Ok _ s' => Ok (_active_vectors_info s') s'
           | Raise e s' => Raise e s'
           end
      else Ok (_active_vectors_info s) s0.
Proof.
  intros H.
  destruct (array_names_spec s) as (i & s0 & Hi & Hn & Hsame).
  exists i, s0. split; [exact Hi |]. split; [exact Hsame |].
  unfold active_vectors_info, bind, gets. rewrite H. cbn [is_None].
  unfold bind. rewrite Hn, in_list_move_to_front.
  destruct (in_list "Normals" (table_names s)).
  - destruct (set_active_vectors apply_status (Some "Normals") POINT s0);
      reflexivity.
  - unfold ret. destruct Hsame as (_ & _ & _ & _ & Hv & _). now rewrite Hv.
Qed.

Lemma in_list_table_names (x : string) (a : FieldAssociation)
      (s : DataSet) :
  In x (keys (attributes a s)) -> in_list x (table_names s) = true.
Proof.
  intros H. apply in_list_In. unfold table_names.
  destruct a; cbn [attributes] in H.
  - apply in_or_app. right. apply in_or_app. now left.
  - apply in_or_app. right. apply in_or_app. now right.
  - apply in_or_app. now left.
Qed.

(** A table that holds ["Normals"] and accepts it: the getter of a
    dataset without recorded vectors activates it there, provided
    [get_array] resolves the name to that table. *)
Lemma active_vectors_info_adopts (s : DataSet) (field : FieldAssociation) :
  name (_active_vectors_info s) = None ->
  field <> NONE ->
  In "Normals" (keys (attributes field s)) ->
  (forall s0, (forall a, arrays (attributes a s0) = arrays (attributes a s)) ->
     exists arr, get_array "Normals" POINT s0 = Ok (arr, field) s0) ->
  (0 <= apply_status VECTORS (attributes field (after_scalars_getter s))
          "Normals")%Z ->
  exists s',
    active_vectors_info apply_status s =
      Ok (mkActiveArrayInfo field (Some "Normals")) s' /\
    _active_vectors_info s' = mkActiveArrayInfo field (Some "Normals") /\
    ActiveVectors (attributes field s') = Some "Normals".
Proof.
  intros Hn Hf Hin Hget Hacc.
  destruct (active_vectors_info_unrecorded s Hn)
    as (i & s0 & Hi & Hsame & ->).
  unfold after_scalars_getter in Hacc. rewrite Hi in Hacc.
  cbn [final_state] in Hacc.
  rewrite (in_list_table_names _ field s Hin).
  destruct (Hget s0 (proj1 Hsame)) as [arr Hg].
  rewrite (set_active_vectors_accepted _ _ _ arr field Hg Hf Hacc).
  eexists. split; [reflexivity |]. split; [reflexivity |].
  destruct field; reflexivity.
Qed.

End Vectors.

(** ** C7: which array the vectors getter adopts *)

(** C7 fails on [cell_normals]: no vectors name is recorded and no point
    array named ["Normals"] exists, yet the getter adopts the cell array of
    that name. *)
Lemma C7_counterexample :
  name (_active_vectors_info cell_normals) = None /\
  ~ In "Normals" (keys (PointData cell_normals)) /\
  active_vectors_info accept_all cell_normals =
    Ok (mkActiveArrayInfo CELL (Some "Normals"))
       (vectors_activated CELL "Normals" cell_normals) /\
  mkActiveArrayInfo CELL (Some "Normals") <> _active_vectors_info cell_normals.
Proof.
  split; [reflexivity |]. split; [intros [] |].
  split; [reflexivity | discriminate].
Qed.

(** C7, amended.  On a dataset with no recorded active-vectors name the
    getter adopts an array named ["Normals"] of the point table or, when
    neither the point nor the field table has that name, of the cell table,
    provided the table that holds it accepts it when asked; when no table
    has the name it returns the record unchanged, whatever other arrays
    exist.  On a dataset with a recorded vectors name it returns the record
    and changes nothing. *)
Theorem C7_normals_adoption
        (apply_status : AttributeType -> DataSetAttributes -> string -> Z)
        (s : DataSet) :
  (name (_active_vectors_info s) = None ->
   In "Normals" (keys (PointData s)) ->
   (0 <= apply_status VECTORS (PointData (after_scalars_getter s))
           "Normals")%Z ->
   exists s',
     active_vectors_info apply_status s =
       Ok (mkActiveArrayInfo POINT (Some "Normals")) s' /\
     _active_vectors_info s' = mkActiveArrayInfo POINT (Some "Normals") /\
     ActiveVectors (PointData s') = Some "Normals") /\
  (name (_active_vectors_info s) = None ->
   ~ In "Normals" (keys (PointData s)) ->
   ~ In "Normals" (keys (FieldData s)) ->
   In "Normals" (keys (CellData s)) ->
   (0 <= apply_status VECTORS (CellData (after_scalars_getter s))
           "Normals")%Z ->
   exists s',
     active_vectors_info apply_status s =
       Ok (mkActiveArrayInfo CELL (Some "Normals")) s' /\
     _active_vectors_info s' = mkActiveArrayInfo CELL (Some "Normals") /\
     ActiveVectors (CellData s') = Some "Normals") /\
  (name (_active_vectors_info s) = None ->
   ~ In "Normals" (table_names s) ->
   exists s',
     active_vectors_info apply_status s = Ok (_active_vectors_info s) s' /\
     _active_vectors_info s' = _active_vectors_info s /\
     forall a, ActiveVectors (attributes a s') = ActiveVectors (attributes a s)) /\
  (name (_active_vectors_info s) <> None ->
   active_vectors_info apply_status s = Ok (_active_vectors_info s) s).
Proof.
  split; [| split; [| split]].
  - intros Hn Hin Hacc.
    apply (active_vectors_info_adopts apply_status s POINT Hn);
      [discriminate | exact Hin | | exact Hacc].
    intros s0 Hs0. apply In_keys_lookup in Hin as [arr Harr].
    exists arr. apply get_array_preferred. now rewrite (Hs0 POINT).
  - intros Hn Hp Hf Hin Hacc.
    apply (active_vectors_info_adopts apply_status s CELL Hn);
      [discriminate | exact Hin | | exact Hacc].
    intros s0 Hs0. apply In_keys_lookup in Hin as [arr Harr].
    apply lookup_None_keys in Hp. exists arr.
    pose proof (Hs0 POINT) as HP. pose proof (Hs0 CELL) as HC.
    cbn [attributes] in HP, HC.
    unfold get_array. cbn [attributes]. now rewrite HP, HC, Hp, Harr.
  - intros Hn Hnone.
    destruct (active_vectors_info_unrecorded apply_status s Hn)
      as (i & s0 & _ & Hsame & ->).
    apply in_list_not_In in Hnone. rewrite Hnone.
    exists s0. split; [reflexivity |].
    destruct Hsame as (_ & Hav & _ & _ & Hv & _). now split.
  - apply active_vectors_info_recorded.
Qed.

Lemma C7_normals_adoption_witness :
  (exists s',
     active_vectors_info accept_held point_normals =
       Ok (mkActiveArrayInfo POINT (Some "Normals")) s' /\
     _active_vectors_info s' = mkActiveArrayInfo POINT (Some "Normals") /\
     ActiveVectors (PointData s') = Some "Normals") /\
  (exists s',
     active_vectors_info accept_held cell_normals =
       Ok (mkActiveArrayInfo CELL (Some "Normals")) s' /\
     _active_vectors_info s' = mkActiveArrayInfo CELL (Some "Normals") /\
     ActiveVectors (CellData s') = Some "Normals") /\
  (exists s',
     active_vectors_info accept_held one_point_array =
       Ok (_active_vectors_info one_point_array) s' /\
     _active_vectors_info s' = _active_vectors_info one_point_array /\
     forall a, ActiveVectors (attributes a s') =
               ActiveVectors (attributes a one_point_array)).
Proof.
  split; [| split].
  - apply (proj1 (C7_normals_adoption accept_held point_normals)).
    + reflexivity.
    + left. reflexivity.
    + vm_compute. discriminate.
  - apply (proj1 (proj2 (C7_normals_adoption accept_held cell_normals))).
    + reflexivity.
    + intros [].
    + intros [].
    + left. reflexivity.
    + vm_compute. discriminate.
  - apply (proj1 (proj2 (proj2
             (C7_normals_adoption accept_held one_point_array)))).
    + reflexivity.
    + apply in_list_not_In. reflexivity.
Defined.

(** ** C8: an explicit clear does not stick *)

(** C8 fails on [point_normals]: after [set_active_vectors(None)] the
    recorded name is [None], and the following getter adopts ["Normals"]
    again. *)
Lemma C8_counterexample :
  In "Normals" (keys (PointData point_normals)) /\
  exists s1 s2,
    set_active_vectors accept_all None POINT point_normals = Ok tt s1 /\
    name (_active_vectors_info s1) = None /\
    active_vectors_info accept_all s1 =
      Ok (mkActiveArrayInfo POINT (Some "Normals")) s2 /\
    name (mkActiveArrayInfo POINT (Some "Normals")) <> None.
Proof.
  split; [left; reflexivity |].
  exists (set_active_vectors_info (mkActiveArrayInfo POINT None)
            (cleared VECTORS point_normals)).
  eexists. split; [reflexivity |]. split; [reflexivity |].
  split; [vm_compute; reflexivity | discriminate].
Qed.

(** C8, amended.  On a dataset with a point array named ["Normals"] that the
    point table accepts when it is asked after the clearing call,
    [set_active_vectors(None)] leaves the recorded vectors name absent, and
    the next evaluation of the vectors getter adopts ["Normals"] again: it
    returns association POINT with the name ["Normals"]. *)
Theorem C8_normals_readopted
        (apply_status : AttributeType -> DataSetAttributes -> string -> Z)
        (p : FieldAssociation) (s : DataSet) :
  In "Normals" (keys (PointData s)) ->
  (0 <= apply_status VECTORS
          (PointData
             (after_scalars_getter
                (final_state (set_active_vectors apply_status None p s))))
          "Normals")%Z ->
  exists s1 s2,
    set_active_vectors apply_status None p s = Ok tt s1 /\
    name (_active_vectors_info s1) = None /\
    active_vectors_info apply_status s1 =
      Ok (mkActiveArrayInfo POINT (Some "Normals")) s2 /\
    _active_vectors_info s2 = mkActiveArrayInfo POINT (Some "Normals").
Proof.
  intros Hin Hacc.
  pose (s1 := set_active_vectors_info (mkActiveArrayInfo POINT None)
                (cleared VECTORS s)).
  rewrite set_active_vectors_None in Hacc. cbn [final_state] in Hacc.
  fold s1 in Hacc.
  assert (Hin1 : In "Normals" (keys (attributes POINT s1))) by exact Hin.
  destruct (active_vectors_info_adopts apply_status s1 POINT eq_refl)
    as (s2 & H2 & Hrec & _);
    [discriminate | exact Hin1 | | exact Hacc |].
  - intros s0 Hs0. apply In_keys_lookup in Hin1 as [arr Harr].
    exists arr. apply get_array_preferred. now rewrite (Hs0 POINT).
  - exists s1, s2. split; [apply set_active_vectors_None |].
    split; [reflexivity |]. now split.
Qed.

Lemma C8_normals_readopted_witness :
  exists s1 s2,
    set_active_vectors accept_held None POINT point_normals = Ok tt s1 /\
    name (_active_vectors_info s1) = None /\
    active_vectors_info accept_held s1 =
      Ok (mkActiveArrayInfo POINT (Some "Normals")) s2 /\
    _active_vectors_info s2 = mkActiveArrayInfo POINT (Some "Normals").
Proof.
  apply (C8_normals_readopted accept_held POINT point_normals).
  - left. reflexivity.
  - vm_compute. discriminate.
Defined.

(** ** Frames of the vectors operations *)

Lemma get_array_final (key : string) (p : FieldAssociation) (s : DataSet) :
  final_state (get_array key p s) = s.
Proof.
  unfold get_array.
  destruct (lookup key (arrays (attributes p s))); [reflexivity |].
  destruct (lookup key (arrays (PointData s))); [reflexivity |].
  destruct (lookup key (arrays (CellData s))); [reflexivity |].
  destruct (lookup key (arrays (FieldData s))); reflexivity.
Qed.

Section VectorsFrame.

Variable apply_status : AttributeType -> DataSetAttributes -> string -> Z.

Lemma set_active_vectors_frame (n : option string) (p : FieldAssociation)
      (s : DataSet) :
  same_meta s (final_state (set_active_vectors apply_status n p s)).
Proof.
  destruct n as [key|].
  - unfold set_active_vectors, set_active_role, bind.
    pose proof (get_array_final key p s) as Hfin.
    destruct (get_array key p s) as [[arr field] s0|e s0];
      cbn [final_state] in Hfin; subst s0; [| repeat split].
    cbn [snd]. destruct field; unfold SetActiveAttribute, raise;
      try (repeat split; fail).
    + destruct (apply_status VECTORS (attributes POINT s) key <? 0)%Z eqn:E;
        rewrite ?E; repeat split.
    + destruct (apply_status VECTORS (attributes CELL s) key <? 0)%Z eqn:E;
        rewrite ?E; repeat split.
  - rewrite set_active_vectors_None. repeat split.
Qed.

Lemma active_scalars_info_resolved (s s' : DataSet) (i : ActiveArrayInfo) :
  active_scalars_info s = Ok i s' -> resolved s' /\ _active_scalars_info s' = i.
Proof.
  intros H.
  destruct (active_scalars_info_spec s) as (i' & s'' & H' & Hi & _).
  rewrite H in H'. injection H' as <- <-.
  split; [| exact Hi]. unfold resolved. rewrite Hi.
  exact (active_scalars_info_idempotent _ _ _ H).
Qed.

Lemma active_vectors_info_frame (s : DataSet) :
  resolved s ->
  same_meta s (final_state (active_vectors_info apply_status s)) /\
  forall avi s',
    active_vectors_info apply_status s = Ok avi s' ->
    _active_vectors_info s' = avi.
Proof.
  intros Hres.
  destruct (name (_active_vectors_info s)) as [n|] eqn:En.
  - rewrite active_vectors_info_recorded by congruence.
    split; [repeat split |]. now intros avi s' [= <- <-].
  - destruct (active_vectors_info_unrecorded apply_status s En)
      as (i & s0 & Hi & _ & ->).
    rewrite Hres in Hi. injection Hi as <- <-.
    destruct (in_list "Normals" (table_names s)).
    + pose proof (set_active_vectors_frame (Some "Normals") POINT s) as Hf.
      destruct (set_active_vectors apply_status (Some "Normals") POINT s)
        as [u s1|e s1]; cbn [final_state] in *.
      * split; [exact Hf |]. now intros avi s' [= <- <-].
      * split; [exact Hf | discriminate].
    + split; [repeat split |]. now intros avi s' [= <- <-].
Qed.

End VectorsFrame.

(** ** C10: what [copy_meta_from] copies *)


Lemma upd_other (i j : nat) (d : DataSet) (h : Heap) :
  j <> i -> upd i d h j = h j.
Proof. intros H. unfold upd. apply Nat.eqb_neq in H. now rewrite H. Qed.

Lemma copy_textures_id (t : list (string * Texture)) : copy_textures t = t.
Proof.
  unfold copy_textures. induction t as [|[n [px]] t IH]; [reflexivity |].
  cbn [map fst snd Texture_copy]. now rewrite IH.
Qed.

Lemma set_active_scalars_info_same (s : DataSet) :
  set_active_scalars_info (_active_scalars_info s) s = s.
Proof. destruct s; reflexivity. Qed.


(** The state of the source when its vectors getter runs is the one its
    scalars getter left. *)
Lemma copy_meta_from_source_state (self ido : nat) (h : Heap)
      (asi : ActiveArrayInfo) (s1 : DataSet) :
  active_scalars_info (h ido) = Ok asi s1 ->
  upd self (set_active_scalars_info asi (upd ido s1 h self)) (upd ido s1 h) ido
  = s1.
Proof.
  intros Hi.
  destruct (active_scalars_info_resolved _ _ _ Hi) as [_ Hrec1].
  unfold upd. rewrite Nat.eqb_refl.
  destruct (Nat.eqb ido self) eqn:E; [| reflexivity].
  rewrite Nat.eqb_sym, E, <- Hrec1.
  apply set_active_scalars_info_same.
Qed.


(** Every object of the store after [copy_meta_from], whether it returned
    or raised in the source's vectors getter. *)
Lemma copy_meta_from_pointwise
        (apply_status : AttributeType -> DataSetAttributes -> string -> Z)
        (self ido : nat) (h : Heap) :
  exists asi s1,
    active_scalars_info (h ido) = Ok asi s1 /\
    match active_vectors_info apply_status s1 with
    | Ok avi s3 =>
        exists h',
          copy_meta_from apply_status self ido h = HOk tt h' /\
          forall j,
            h' j = if Nat.eqb j self
                   then meta_copied self ido asi avi s3 (h self)
                   else if Nat.eqb j ido then s3 else h j
    | Raise e s3 =>
        exists h',
          copy_meta_from apply_status self ido h = HRaise e h' /\
          forall j,
            h' j = if Nat.eqb j ido then s3
                   else if Nat.eqb j self
                        then set_active_scalars_info asi (h self)
                        else h j
    end.
Proof.
  destruct (active_scalars_info_spec (h ido)) as (asi & s1 & Hi & _ & _).
  exists asi, s1. split; [exact Hi |].
  unfold copy_meta_from, hbind, on, modify, clear_textures, gets, modify.
  rewrite Hi, (copy_meta_from_source_state self ido h asi s1 Hi).
  destruct (active_vectors_info apply_status s1) as [avi s3|e s3].
  - eexists. split; [reflexivity |].
    intros j. unfold upd, meta_copied. rewrite ?Nat.eqb_refl.
    rewrite (Nat.eqb_sym ido self).
    destruct (Nat.eqb j self) eqn:Ej.
    + destruct (Nat.eqb self ido) eqn:E; [reflexivity |].
      cbn. now rewrite copy_textures_id.
    + destruct (Nat.eqb j ido) eqn:Ei; [| reflexivity].
      apply Nat.eqb_eq in Ei. subst j.
      rewrite (Nat.eqb_sym self ido), Ej. reflexivity.
  - eexists. split; [reflexivity |].
    intros j. unfold upd.
    destruct (Nat.eqb j ido) eqn:Ei; [reflexivity |].
    destruct (Nat.eqb j self) eqn:Ej; [| reflexivity].
    apply Nat.eqb_eq in Ej. subst j. now rewrite Ei.
Qed.



(** * Further properties of [dataset.py] *)

(** ** Pickling *)

(** X1.  Unpickling a pickled [ActiveArrayInfo] gives the info back, equal
    under [__eq__]; and a state unpickles to an info exactly when it is the
    pickled state of that info, so a state whose association is no member's
    value does not unpickle. *)
Theorem ActiveArrayInfo_pickle_roundtrip (i : ActiveArrayInfo)
        (st : PickleState) :
  ActiveArrayInfo_setstate (ActiveArrayInfo_getstate i) = Some i /\
  (exists j, ActiveArrayInfo_setstate (ActiveArrayInfo_getstate i) = Some j /\
             ActiveArrayInfo_eq j i = true) /\
  (ActiveArrayInfo_setstate st = Some i <-> st = ActiveArrayInfo_getstate i).
Proof.
  assert (R : ActiveArrayInfo_setstate (ActiveArrayInfo_getstate i) = Some i).
  { destruct i as [[] n]; reflexivity. }
  split; [exact R |]. split.
  - exists i. split; [exact R |]. now apply ActiveArrayInfo_eq_spec.
  - split.
    + destruct st as [v n]. unfold ActiveArrayInfo_setstate,
        FieldAssociation_of_value, ActiveArrayInfo_getstate.
      cbn [state_association state_name].
      destruct (Z.eqb v 0) eqn:E0.
      { apply Z.eqb_eq in E0. subst v. now intros [= <-]. }
      destruct (Z.eqb v 1) eqn:E1.
      { apply Z.eqb_eq in E1. subst v. now intros [= <-]. }
      destruct (Z.eqb v 2) eqn:E2.
      { apply Z.eqb_eq in E2. subst v. now intros [= <-]. }
      discriminate.
    + intros ->. exact R.
Qed.

(** ** [array_names] *)

Lemma remove_first_Permutation (x : string) (l : list string) :
  In x l -> Permutation (x :: remove_first x l) l.
Proof.
  induction l as [|y l IH]; [intros [] |].
  cbn [remove_first]. destruct (String.eqb y x) eqn:E.
  - apply String.eqb_eq in E. subst y. intros _. apply Permutation_refl.
  - intros [H | H].
    + subst y. now rewrite String.eqb_refl in E.
    + apply perm_trans with (y :: x :: remove_first x l).
      * apply perm_swap.
      * apply perm_skip. now apply IH.
Qed.

Lemma move_to_front_Permutation (n : option string) (l : list string) :
  Permutation (move_to_front n l) l.
Proof.
  destruct n as [x|]; [| apply Permutation_refl]. cbn [move_to_front].
  destruct (in_list x l) eqn:E; [| apply Permutation_refl].
  apply remove_first_Permutation. now apply in_list_In.
Qed.

(** X2.  [array_names] returns the names of the field, point and cell
    tables, each as often as the tables hold it, and puts the active-scalars
    name first whenever that name is among them; with the active-scalars
    name in no table, or absent, the names come in table order. *)
Theorem array_names_active_first (s s' : DataSet) (names : list string) :
  array_names s = Ok names s' ->
  Permutation names (table_names s) /\
  exists i,
    active_scalars_info s = Ok i s' /\
    (forall n, name i = Some n -> In n (table_names s) ->
       names = n :: remove_first n (table_names s)) /\
    ((name i = None \/ exists n, name i = Some n /\ ~ In n (table_names s)) ->
       names = table_names s).
Proof.
  intros H.
  destruct (array_names_spec s) as (i & s0 & Hi & Hn & _).
  rewrite H in Hn. injection Hn as -> <-.
  split; [apply move_to_front_Permutation |].
  exists i. split; [exact Hi |]. split.
  - intros n Hname Hin. rewrite Hname. cbn [move_to_front].
    apply in_list_In in Hin. now rewrite Hin.
  - intros [Hnone | (n & Hname & Hnin)].
    + now rewrite Hnone.
    + rewrite Hname. cbn [move_to_front].
      apply in_list_not_In in Hnin. now rewrite Hnin.
Qed.

Lemma array_names_active_first_witness :
  exists s',
    array_names point_normals = Ok ["a"; "Normals"] s' /\
    Permutation ["a"; "Normals"] (table_names point_normals).
Proof.
  exists (write_active_scalars POINT "a"
            (set_active_scalars_info (mkActiveArrayInfo POINT (Some "a"))
                                     point_normals)).
  assert (H : array_names point_normals =
              Ok ["a"; "Normals"]
                 (write_active_scalars POINT "a"
                    (set_active_scalars_info
                       (mkActiveArrayInfo POINT (Some "a")) point_normals)))
    by reflexivity.
  split; [exact H |].
  exact (proj1 (array_names_active_first _ _ _ H)).
Defined.

(** ** Reading the active arrays back *)

Lemma active_array_lookup (field : FieldAssociation) (key : string)
      (s : DataSet) :
  field <> NONE ->
  active_array (mkActiveArrayInfo field (Some key)) s =
  lookup key (arrays (attributes field s)).
Proof.
  intros Hf. destruct field; [reflexivity | reflexivity | now contradiction Hf].
Qed.

Lemma active_array_no_name (f : FieldAssociation) (s : DataSet) :
  active_array (mkActiveArrayInfo f None) s = None.
Proof. destruct f; reflexivity. Qed.

(** X4.  After [set_active_scalars(name)] has activated an unreserved name
    that the resolved table accepts when it is asked, [active_scalars]
    returns the array that [get_array] found under that name. *)
Theorem set_active_scalars_then_active_scalars
        (apply_status : AttributeType -> DataSetAttributes -> string -> Z)
        (key : string) (p : FieldAssociation) (s : DataSet)
        (arr : Array) (field : FieldAssociation) :
  get_array key p s = Ok (arr, field) s ->
  field <> NONE ->
  ~ reserved key ->
  (0 <= apply_status SCALARS (attributes field (after_scalars_getter s))
          key)%Z ->
  exists s1,
    set_active_scalars apply_status (Some key) p s = Ok tt s1 /\
    active_scalars s1 = Ok (Some arr) s1.
Proof.
  intros Hg Hf Hres Hacc.
  destruct (get_array_Ok _ _ _ _ _ _ Hg) as [_ Hl].
  destruct (active_scalars_info_spec s) as (i & s0 & Hi & _ & Hsame).
  destruct Hsame as (Harr & _).
  unfold after_scalars_getter in Hacc. rewrite Hi in Hacc.
  cbn [final_state] in Hacc.
  exists (activated field key i s0). split.
  - apply (set_active_scalars_accepted apply_status key p s s0 arr field i);
      auto.
  - unfold active_scalars, bind, gets.
    assert (Hl1 : lookup key (arrays (attributes field (activated field key i s0)))
                  = Some arr).
    { now rewrite activated_arrays, Harr. }
    rewrite active_scalars_info_fresh.
    + cbn [activated _active_scalars_info set_active_scalars_info].
      rewrite (active_array_lookup field key _ Hf). now rewrite Hl1.
    + apply (recorded_present_fresh _ field key); [reflexivity | exact Hres |].
      now apply (In_keys_all_arrays field key arr).
Qed.

Lemma set_active_scalars_then_active_scalars_witness :
  exists s1,
    set_active_scalars accept_held (Some "a") CELL point_normals = Ok tt s1 /\
    active_scalars s1 = Ok (Some [5]%Z) s1.
Proof.
  apply (set_active_scalars_then_active_scalars accept_held "a" CELL
           point_normals [5]%Z POINT).
  - reflexivity.
  - discriminate.
  - unfold reserved. rewrite <- in_list_In. discriminate.
  - vm_compute. discriminate.
Defined.

(** X5.  On a dataset whose record is stale, [active_scalars] returns the
    data of the first unreserved point array; when the point and cell tables
    hold reserved names only (or nothing), it returns [None]. *)
Theorem active_scalars_default (s : DataSet) :
  stale s ->
  (forall a arr,
     first_unreserved (keys (PointData s)) a ->
     lookup a (arrays (PointData s)) = Some arr ->
     exists s', active_scalars s = Ok (Some arr) s') /\
  (all_reserved (keys (PointData s)) ->
   all_reserved (keys (CellData s)) ->
   exists s', active_scalars s = Ok None s').
Proof.
  intros Hs. apply needs_resolution_stale in Hs.
  unfold active_scalars, bind, gets.
  rewrite (active_scalars_info_stale s Hs). split.
  - intros a arr Ha Hl. apply first_arr_Some in Ha. rewrite Ha.
    eexists. f_equal. destruct s as [[pa ps pv pt] c f l i v t x].
    cbn in *. exact Hl.
  - intros Hp Hc. apply first_arr_None in Hp. apply first_arr_None in Hc.
    rewrite Hp, Hc. cbv zeta. cbv beta iota.
    rewrite active_array_no_name. eexists. reflexivity.
Qed.

Lemma active_scalars_default_witness :
  (exists s', active_scalars point_normals = Ok (Some [5]%Z) s') /\
  (exists s', active_scalars only_tcoords = Ok None s').
Proof.
  assert (H1 : stale point_normals).
  { apply needs_resolution_stale. reflexivity. }
  assert (H2 : stale only_tcoords).
  { apply needs_resolution_stale. reflexivity. }
  split.
  - apply (proj1 (active_scalars_default point_normals H1) "a").
    + exists ["Normals"], []. repeat split.
      * unfold reserved. rewrite <- in_list_In. discriminate.
      * intros x [<- | []]. unfold reserved. apply in_list_In. reflexivity.
    + reflexivity.
  - apply (proj2 (active_scalars_default only_tcoords H2)).
    + apply all_reserved_dec. reflexivity.
    + apply all_reserved_dec. reflexivity.
Defined.

(** X6.  A record that names an unreserved array of the other table is not
    re-resolved: with the recorded name gone from the point table but held
    by the cell table, [active_scalars_info] keeps returning the point
    record and [active_scalars] returns [None], although the dataset holds
    an array of that name. *)
Theorem active_scalars_dangling (s : DataSet) (x : string) :
  _active_scalars_info s = mkActiveArrayInfo POINT (Some x) ->
  ~ reserved x ->
  ~ In x (keys (PointData s)) ->
  In x (keys (CellData s)) ->
  active_scalars_info s = Ok (mkActiveArrayInfo POINT (Some x)) s /\
  active_scalars s = Ok None s.
Proof.
  intros Hr Hres Hp Hc.
  assert (E : needs_resolution s = false).
  { apply (recorded_present_fresh s POINT x Hr Hres).
    apply in_or_app. now right. }
  assert (Hi : active_scalars_info s = Ok (mkActiveArrayInfo POINT (Some x)) s).
  { rewrite (active_scalars_info_fresh s E). now rewrite Hr. }
  split; [exact Hi |].
  unfold active_scalars, bind, gets. rewrite Hi.
  unfold active_array. cbn [association name table_get].
  apply lookup_None_keys in Hp. now rewrite Hp.
Qed.

Lemma active_scalars_dangling_witness :
  exists s,
    clear_point_arrays shared_name = Ok tt s /\
    active_scalars_info s = Ok (mkActiveArrayInfo POINT (Some "x")) s /\
    active_scalars s = Ok None s.
Proof.
  exists (set_PointData (clear_table (PointData shared_name)) shared_name).
  split; [reflexivity |].
  apply (active_scalars_dangling _ "x").
  - reflexivity.
  - unfold reserved. rewrite <- in_list_In. discriminate.
  - intros [].
  - left. reflexivity.
Defined.

(** ** Activating vectors and tensors *)

Section Roles.

Variable apply_status : AttributeType -> DataSetAttributes -> string -> Z.

Lemma set_active_role_accepted (ty : AttributeType)
      (record : ActiveArrayInfo -> DataSet -> DataSet)
      (key : string) (p : FieldAssociation) (s : DataSet) (arr : Array)
      (field : FieldAssociation) :
  get_array key p s = Ok (arr, field) s ->
  field <> NONE ->
  (0 <= apply_status ty (attributes field s) key)%Z ->
  set_active_role apply_status ty record (Some key) p s =
    Ok tt (role_activated ty record field key s).
Proof.
  intros Hg Hf Hst. unfold set_active_role, bind.
  rewrite Hg. cbn [snd]. apply Z.ltb_ge in Hst.
  destruct field; [| | contradiction]; unfold SetActiveAttribute;
    rewrite Hst; rewrite Hst; reflexivity.
Qed.

Lemma set_active_role_rejected (ty : AttributeType)
      (record : ActiveArrayInfo -> DataSet -> DataSet)
      (key : string) (p : FieldAssociation) (s : DataSet) (arr : Array)
      (field : FieldAssociation) :
  get_array key p s = Ok (arr, field) s ->
  field <> NONE ->
  (apply_status ty (attributes field s) key < 0)%Z ->
  set_active_role apply_status ty record (Some key) p s =
    Raise (ActivationError field) s.
Proof.
  intros Hg Hf Hst. unfold set_active_role, bind.
  rewrite Hg. cbn [snd]. apply Z.ltb_lt in Hst.
  destruct field; [| | contradiction]; unfold SetActiveAttribute;
    rewrite Hst; rewrite Hst; reflexivity.
Qed.

(** Whatever makes the shared body raise, it raises before it has changed
    anything. *)
Lemma set_active_role_atomic (ty : AttributeType)
      (record : ActiveArrayInfo -> DataSet -> DataSet)
      (n : option string) (p : FieldAssociation) (s s' : DataSet)
      (e : Error) :
  set_active_role apply_status ty record n p s = Raise e s' -> s' = s.
Proof.
  destruct n as [key|]; [| discriminate].
  unfold set_active_role, bind.
  pose proof (get_array_final key p s) as Hfin.
  destruct (get_array key p s) as [[arr field] s0|e0 s0];
    cbn [final_state] in Hfin; subst s0; [| now intros [= _ <-]].
  cbn [snd]. destruct field; unfold SetActiveAttribute, raise.
  - destruct (apply_status ty (attributes POINT s) key <? 0)%Z eqn:E;
      rewrite ?E; [now intros [= _ <-] | discriminate].
  - destruct (apply_status ty (attributes CELL s) key <? 0)%Z eqn:E;
      rewrite ?E; [now intros [= _ <-] | discriminate].
  - now intros [= _ <-].
Qed.

End Roles.

(** X7.  [set_active_vectors] and [set_active_tensors] are all-or-nothing:
    when either raises, the dataset is exactly as before the call; in
    particular a name that resolves to a point or cell array which the
    native table rejects gives [ActivationError] with nothing changed. *)
Theorem set_active_vectors_tensors_atomic
        (apply_status : AttributeType -> DataSetAttributes -> string -> Z)
        (n : option string) (p : FieldAssociation) (s : DataSet) :
  (forall e s', set_active_vectors apply_status n p s = Raise e s' -> s' = s) /\
  (forall e s', set_active_tensors apply_status n p s = Raise e s' -> s' = s) /\
  (forall key arr field,
     n = Some key ->
     get_array key p s = Ok (arr, field) s -> field <> NONE ->
     ((apply_status VECTORS (attributes field s) key < 0)%Z ->
      set_active_vectors apply_status n p s = Raise (ActivationError field) s) /\
     ((apply_status TENSORS (attributes field s) key < 0)%Z ->
      set_active_tensors apply_status n p s = Raise (ActivationError field) s)).
Proof.
  split; [| split].
  - intros e s'. apply set_active_role_atomic.
  - intros e s'. apply set_active_role_atomic.
  - intros key arr field -> Hg Hf. split; intros Hst.
    + now apply (set_active_role_rejected _ _ _ _ _ _ arr).
    + now apply (set_active_role_rejected _ _ _ _ _ _ arr).
Qed.

Lemma set_active_vectors_tensors_atomic_witness :
  set_active_vectors (reject "a") (Some "a") POINT point_normals =
    Raise (ActivationError POINT) point_normals /\
  set_active_tensors (reject "a") (Some "a") POINT point_normals =
    Raise (ActivationError POINT) point_normals /\
  (forall e s',
     set_active_vectors (reject "a") (Some "a") POINT point_normals
       = Raise e s' -> s' = point_normals).
Proof.
  destruct (set_active_vectors_tensors_atomic (reject "a") (Some "a") POINT
              point_normals) as (Hv & _ & H).
  destruct (H "a" [5]%Z POINT eq_refl eq_refl) as [H1 H2]; [discriminate |].
  split; [apply H1; reflexivity |]. split; [apply H2; reflexivity |].
  exact Hv.
Defined.

Lemma role_activated_arrays (ty : AttributeType) (field a : FieldAssociation)
      (key : string) (s : DataSet) :
  arrays (attributes a (role_activated ty set_active_vectors_info field key s))
    = arrays (attributes a s) /\
  arrays (attributes a (role_activated ty set_active_tensors_info field key s))
    = arrays (attributes a s).
Proof. destruct ty, field, a; split; reflexivity. Qed.

(** X8.  After [set_active_vectors(name)], respectively
    [set_active_tensors(name)], has activated a point or cell array that the
    native table accepts, [active_vectors], respectively [active_tensors],
    returns that array and changes nothing; the active-scalars record and
    the record of the other role are as before the activation. *)
Theorem set_active_role_then_read_back
        (apply_status : AttributeType -> DataSetAttributes -> string -> Z)
        (key : string) (p : FieldAssociation) (s : DataSet)
        (arr : Array) (field : FieldAssociation) :
  get_array key p s = Ok (arr, field) s ->
  field <> NONE ->
  ((0 <= apply_status VECTORS (attributes field s) key)%Z ->
   exists s1,
     set_active_vectors apply_status (Some key) p s = Ok tt s1 /\
     active_vectors apply_status s1 = Ok (Some arr) s1 /\
     _active_scalars_info s1 = _active_scalars_info s /\
     _active_tensors_info s1 = _active_tensors_info s) /\
  ((0 <= apply_status TENSORS (attributes field s) key)%Z ->
   exists s1,
     set_active_tensors apply_status (Some key) p s = Ok tt s1 /\
     active_tensors s1 = Ok (Some arr) s1 /\
     _active_scalars_info s1 = _active_scalars_info s /\
     _active_vectors_info s1 = _active_vectors_info s).
Proof.
  intros Hg Hf. destruct (get_array_Ok _ _ _ _ _ _ Hg) as [_ Hl].
  split; intros Hst.
  - set (s1 := role_activated VECTORS set_active_vectors_info field key s).
    assert (Hrec : _active_vectors_info s1 = mkActiveArrayInfo field (Some key))
      by reflexivity.
    assert (Hl1 : lookup key (arrays (attributes field s1)) = Some arr).
    { unfold s1.
      now rewrite (proj1 (role_activated_arrays VECTORS field field key s)). }
    exists s1.
    split; [now apply (set_active_role_accepted _ _ _ _ _ _ arr) |].
    split; [| destruct field; split; reflexivity].
    unfold active_vectors, bind, gets.
    rewrite active_vectors_info_recorded by (rewrite Hrec; discriminate).
    rewrite Hrec, (active_array_lookup field key _ Hf). now rewrite Hl1.
  - set (s1 := role_activated TENSORS set_active_tensors_info field key s).
    assert (Hrec : _active_tensors_info s1 = mkActiveArrayInfo field (Some key))
      by reflexivity.
    assert (Hl1 : lookup key (arrays (attributes field s1)) = Some arr).
    { unfold s1.
      now rewrite (proj2 (role_activated_arrays TENSORS field field key s)). }
    exists s1.
    split; [now apply (set_active_role_accepted _ _ _ _ _ _ arr) |].
    split; [| destruct field; split; reflexivity].
    unfold active_tensors, active_tensors_info, bind, gets.
    rewrite Hrec, (active_array_lookup field key _ Hf). now rewrite Hl1.
Qed.

Lemma set_active_role_then_read_back_witness :
  (exists s1,
     set_active_vectors accept_all (Some "Normals") POINT point_normals
       = Ok tt s1 /\
     active_vectors accept_all s1 = Ok (Some [0; 0; 1]%Z) s1 /\
     _active_scalars_info s1 = _active_scalars_info point_normals /\
     _active_tensors_info s1 = _active_tensors_info point_normals) /\
  (exists s1,
     set_active_tensors accept_all (Some "Normals") POINT point_normals
       = Ok tt s1 /\
     active_tensors s1 = Ok (Some [0; 0; 1]%Z) s1 /\
     _active_scalars_info s1 = _active_scalars_info point_normals /\
     _active_vectors_info s1 = _active_vectors_info point_normals).
Proof.
  destruct (set_active_role_then_read_back accept_all "Normals" POINT
              point_normals [0; 0; 1]%Z POINT eq_refl) as [Hv Ht].
  - discriminate.
  - split; [apply Hv | apply Ht]; unfold accept_all; lia.
Defined.

(** ** Clearing the tables *)

Lemma clear_arrays_eq (s : DataSet) :
  clear_arrays s = Ok tt (arrays_cleared s).
Proof. reflexivity. Qed.

Lemma no_arrays_needs_resolution (s : DataSet) :
  all_arrays s = [] -> needs_resolution s = true.
Proof.
  intros H. unfold needs_resolution. rewrite H.
  destruct (substituted_name s); reflexivity.
Qed.

(** X9.  After [clear_arrays] the dataset counts no array and lists no
    name, and the scalars getters resolve to nothing whatever was recorded
    before: [active_scalars_info] returns a name of [None] with the
    recorded association and [active_scalars] returns [None]. *)
Theorem clear_arrays_resets_scalars (s : DataSet) :
  exists s1 s2,
    clear_arrays s = Ok tt s1 /\
    n_arrays s1 = 0 /\
    array_names s1 = Ok [] s2 /\
    active_scalars_info s1 =
      Ok (mkActiveArrayInfo (association (_active_scalars_info s)) None) s2 /\
    active_scalars s1 = Ok None s2.
Proof.
  exists (arrays_cleared s).
  exists (set_active_scalars_info
            (mkActiveArrayInfo (association (_active_scalars_info s)) None)
            (arrays_cleared s)).
  assert (Hi : active_scalars_info (arrays_cleared s) =
               Ok (mkActiveArrayInfo (association (_active_scalars_info s)) None)
                  (set_active_scalars_info
                     (mkActiveArrayInfo (association (_active_scalars_info s))
                                        None)
                     (arrays_cleared s))).
  { rewrite active_scalars_info_stale
      by (apply no_arrays_needs_resolution; reflexivity).
    reflexivity. }
  split; [apply clear_arrays_eq |]. split; [reflexivity |].
  split; [| split; [exact Hi |]].
  - unfold array_names, bind, gets, active_scalars_name, bind. rewrite Hi.
    reflexivity.
  - unfold active_scalars, bind, gets. rewrite Hi.
    now rewrite active_array_no_name.
Qed.

(** X10.  [clear_arrays] does not touch the vectors and tensors records: a
    recorded vectors or tensors name is still returned by
    [active_vectors_info] and [active_tensors_info] after the arrays are
    gone, while [active_vectors] and [active_tensors] return [None]. *)
Theorem clear_arrays_keeps_vectors_tensors_records
        (apply_status : AttributeType -> DataSetAttributes -> string -> Z)
        (s : DataSet) :
  (name (_active_vectors_info s) <> None ->
   active_vectors_info apply_status (arrays_cleared s) =
     Ok (_active_vectors_info s) (arrays_cleared s) /\
   active_vectors apply_status (arrays_cleared s) =
     Ok None (arrays_cleared s)) /\
  active_tensors_info (arrays_cleared s) =
    Ok (_active_tensors_info s) (arrays_cleared s) /\
  active_tensors (arrays_cleared s) = Ok None (arrays_cleared s).
Proof.
  assert (Hnone : forall i, active_array i (arrays_cleared s) = None).
  { intros [[] [k|]]; reflexivity. }
  split; [| split].
  - intros Hn.
    assert (Hi : active_vectors_info apply_status (arrays_cleared s) =
                 Ok (_active_vectors_info s) (arrays_cleared s)).
    { now rewrite active_vectors_info_recorded. }
    split; [exact Hi |].
    unfold active_vectors, bind, gets. rewrite Hi. now rewrite Hnone.
  - reflexivity.
  - unfold active_tensors, active_tensors_info, bind, gets.
    now rewrite Hnone.
Qed.

Lemma clear_arrays_keeps_vectors_tensors_records_witness :
  let s := vectors_activated POINT "Normals" point_normals in
  clear_arrays s = Ok tt (arrays_cleared s) /\
  active_vectors_info accept_all (arrays_cleared s) =
    Ok (mkActiveArrayInfo POINT (Some "Normals")) (arrays_cleared s) /\
  active_vectors accept_all (arrays_cleared s) = Ok None (arrays_cleared s).
Proof.
  intros s. split; [reflexivity |].
  apply (proj1 (clear_arrays_keeps_vectors_tensors_records accept_all s)).
  discriminate.
Defined.

(** ** Item access *)

(** X11.  [mesh[name] = scalars] stores an array whose length is the number
    of points in the point table, also when the number of cells is the same;
    an array of another length that matches the number of cells goes to the
    cell table; any other length raises the not-matching [ValueError] and
    [None] raises [TypeError], both with the dataset unchanged.  A stored
    array leaves the other tables, the records and the textures alone. *)
Theorem setitem_dispatch (n_points n_cells : nat) (key : string)
        (scalars : option Array) (s : DataSet) :
  (scalars = None ->
   DataSet_setitem n_points n_cells key scalars s =
     Thrown TypeError_empty_array s) /\
  (forall arr, scalars = Some arr ->
     (length arr = n_points ->
      exists s',
        DataSet_setitem n_points n_cells key scalars s = Returned tt s' /\
        lookup key (arrays (PointData s')) = Some arr /\
        CellData s' = CellData s) /\
     (length arr <> n_points -> length arr = n_cells ->
      exists s',
        DataSet_setitem n_points n_cells key scalars s = Returned tt s' /\
        lookup key (arrays (CellData s')) = Some arr /\
        PointData s' = PointData s) /\
     (length arr <> n_points -> length arr <> n_cells ->
      DataSet_setitem n_points n_cells key scalars s =
        Thrown ValueError_not_matching s)) /\
  (forall s',
     DataSet_setitem n_points n_cells key scalars s = Returned tt s' ->
     FieldData s' = FieldData s /\
     _active_scalars_info s' = _active_scalars_info s /\
     _last_active_scalars_name s' = _last_active_scalars_name s /\
     _active_vectors_info s' = _active_vectors_info s /\
     _active_tensors_info s' = _active_tensors_info s /\
     _textures s' = _textures s).
Proof.
  split; [| split].
  - intros ->. reflexivity.
  - intros arr ->. unfold DataSet_setitem. split; [| split].
    + intros H. apply Nat.eqb_eq in H. rewrite H.
      eexists. split; [reflexivity |]. split; [| reflexivity].
      cbn. apply lookup_assoc_set_same.
    + intros H1 H2. apply Nat.eqb_neq in H1. apply Nat.eqb_eq in H2.
      rewrite H1, H2.
      eexists. split; [reflexivity |]. split; [| reflexivity].
      cbn. apply lookup_assoc_set_same.
    + intros H1 H2. apply Nat.eqb_neq in H1. apply Nat.eqb_neq in H2.
      now rewrite H1, H2.
  - intros s'. unfold DataSet_setitem.
    destruct scalars as [arr|]; [| discriminate].
    destruct (Nat.eqb (length arr) n_points).
    { intros [= <-]. repeat split. }
    destruct (Nat.eqb (length arr) n_cells); [| discriminate].
    intros [= <-]. repeat split.
Qed.

Lemma setitem_dispatch_witness :
  (exists s',
     DataSet_setitem 2 2 "h" (Some [7; 8]%Z) one_point_array = Returned tt s' /\
     lookup "h" (arrays (PointData s')) = Some [7; 8]%Z /\
     CellData s' = CellData one_point_array) /\
  DataSet_setitem 2 3 "h" (Some [7]%Z) one_point_array =
    Thrown ValueError_not_matching one_point_array /\
  DataSet_setitem 2 3 "h" None one_point_array =
    Thrown TypeError_empty_array one_point_array.
Proof.
  split; [| split].
  - apply (proj1 (proj1 (proj2 (setitem_dispatch 2 2 "h" (Some [7; 8]%Z)
                                   one_point_array)) [7; 8]%Z eq_refl)).
    reflexivity.
  - apply (proj2 (proj2 (proj1 (proj2 (setitem_dispatch 2 3 "h" (Some [7]%Z)
                                          one_point_array)) [7]%Z eq_refl)));
      cbn; lia.
  - apply (proj1 (setitem_dispatch 2 3 "h" None one_point_array)).
    reflexivity.
Defined.

Lemma DataSet_getitem_preferred (key : string) (p : FieldAssociation)
      (s : DataSet) (arr : Array) :
  lookup key (arrays (attributes p s)) = Some arr ->
  DataSet_getitem (IndexPair key p) s = Returned arr s.
Proof.
  intros H. unfold DataSet_getitem, lift, DataSet_get_array, bind.
  now rewrite (get_array_preferred key p s arr H).
Qed.

(** X12.  After [mesh[name] = scalars] has stored a point array,
    [mesh[name, 'point']] returns it.  The plain [mesh[name]], which prefers
    cell data, returns it when no cell or field array has that name; when a
    cell array has that name, [mesh[name]] returns the cell array
    instead. *)
Theorem setitem_getitem_roundtrip (n_points n_cells : nat) (key : string)
        (arr : Array) (s s' : DataSet) :
  length arr = n_points ->
  DataSet_setitem n_points n_cells key (Some arr) s = Returned tt s' ->
  DataSet_getitem (IndexPair key POINT) s' = Returned arr s' /\
  (~ In key (keys (CellData s)) -> ~ In key (keys (FieldData s)) ->
   DataSet_getitem (IndexName key) s' = Returned arr s') /\
  (forall c, lookup key (arrays (CellData s)) = Some c ->
   DataSet_getitem (IndexName key) s' = Returned c s').
Proof.
  intros Hlen. unfold DataSet_setitem. apply Nat.eqb_eq in Hlen.
  rewrite Hlen. intros [= <-].
  assert (Hp : lookup key (arrays (PointData
                 (set_PointData (setitem key arr (PointData s)) s))) = Some arr).
  { cbn. apply lookup_assoc_set_same. }
  split; [now apply DataSet_getitem_preferred |]. split.
  - intros Hc Hf. apply lookup_None_keys in Hc.
    unfold DataSet_getitem, lift, DataSet_get_array, bind, get_array.
    cbn [attributes]. rewrite Hp.
    change (CellData (set_PointData (setitem key arr (PointData s)) s))
      with (CellData s).
    now rewrite Hc.
  - intros c Hc.
    change (DataSet_getitem (IndexName key)) with
      (DataSet_getitem (IndexPair key CELL)).
    now apply DataSet_getitem_preferred.
Qed.

Lemma setitem_getitem_roundtrip_witness :
  let s' := set_PointData (setitem "x" [7]%Z (PointData shared_name))
                          shared_name in
  DataSet_getitem (IndexPair "x" POINT) s' = Returned [7]%Z s' /\
  DataSet_getitem (IndexName "x") s' = Returned [2]%Z s'.
Proof.
  intros s'.
  destruct (setitem_getitem_roundtrip 1 1 "x" [7]%Z shared_name s')
    as (H1 & _ & H3).
  - reflexivity.
  - reflexivity.
  - split; [exact H1 |]. apply H3. reflexivity.
Defined.

(** X13.  [mesh[name]] and [mesh[name, preference]] raise the [KeyError] of
    a missing array when no table holds the name, and item reading leaves
    the dataset as it was, whatever the index and whether it returns or
    raises. *)
Theorem getitem_missing (index : Index) (s : DataSet) :
  (forall key p,
     (index = IndexName key \/ index = IndexPair key p) ->
     ~ In key (table_names s) ->
     DataSet_getitem index s = Thrown (RegistryError (ArrayNotFound key)) s) /\
  match DataSet_getitem index s with
  | Returned _ s' => s' = s
  | Thrown _ s' => s' = s
  end.
Proof.
  split.
  - intros key p Hidx Hnin.
    assert (Hall : forall a, lookup key (arrays (attributes a s)) = None).
    { intros a. apply lookup_None_keys. intros Hin. apply Hnin.
      apply in_list_In. now apply (in_list_table_names key a). }
    assert (Hg : forall q, get_array key q s = Raise (ArrayNotFound key) s).
    { intros q. unfold get_array. rewrite (Hall q).
      pose proof (Hall POINT) as HP. pose proof (Hall CELL) as HC.
      pose proof (Hall NONE) as HF. cbn [attributes] in HP, HC, HF.
      now rewrite HP, HC, HF. }
    destruct Hidx as [-> | ->];
      unfold DataSet_getitem, lift, DataSet_get_array, bind;
      now rewrite Hg.
  - destruct index as [key|key p|n|]; [| | reflexivity | reflexivity];
      unfold DataSet_getitem, lift, DataSet_get_array, bind.
    + pose proof (get_array_final key CELL s) as H.
      destruct (get_array key CELL s); exact H.
    + pose proof (get_array_final key p s) as H.
      destruct (get_array key p s); exact H.
Qed.

Lemma getitem_missing_witness :
  DataSet_getitem (IndexName "nope") one_point_array =
    Thrown (RegistryError (ArrayNotFound "nope")) one_point_array /\
  DataSet_getitem (IndexPair "nope" POINT) one_point_array =
    Thrown (RegistryError (ArrayNotFound "nope")) one_point_array.
Proof.
  split.
  - apply (proj1 (getitem_missing (IndexName "nope") one_point_array)
             "nope" CELL).
    + left. reflexivity.
    + apply in_list_not_In. reflexivity.
  - apply (proj1 (getitem_missing (IndexPair "nope" POINT) one_point_array)
             "nope" POINT).
    + right. reflexivity.
    + apply in_list_not_In. reflexivity.
Defined.

(** ** More on [rename_array] *)

Lemma keys_assoc_remove (key : string) (l : list (string * Array)) :
  map fst (assoc_remove key l) =
  filter (fun k => negb (String.eqb k key)) (map fst l).
Proof.
  induction l as [|[k x] l IH]; [reflexivity |].
  cbn [assoc_remove filter map fst].
  destruct (String.eqb k key); cbn [negb map fst]; now rewrite <- IH.
Qed.

Lemma keys_assoc_set (key : string) (v : Array) (l : list (string * Array)) :
  map fst (assoc_set key v l) =
  if in_list key (map fst l) then map fst l
  else (map fst l ++ [key])%list.
Proof.
  induction l as [|[k x] l IH]; [reflexivity |].
  cbn [assoc_set map fst]. unfold in_list in *. cbn [existsb].
  rewrite (String.eqb_sym key k).
  destruct (String.eqb k key) eqn:E; cbn [map fst orb].
  - apply String.eqb_eq in E. now subst k.
  - rewrite IH. now destruct (existsb (String.eqb key) (map fst l)).
Qed.

(** X14.  Renaming an array that is not the active scalars moves its data
    to the new name without any activation: the call returns, the active
    scalars record is the one the getter resolves, and the last-active name
    is as before.  In iteration order the table keeps the other names in
    place and, unless the new name was already there, lists the new name
    last; a name that was already there keeps its place and now holds the
    renamed data. *)
Theorem rename_array_inactive
        (apply_status : AttributeType -> DataSetAttributes -> string -> Z)
        (old_name new_name : string) (p : FieldAssociation)
        (s s0 : DataSet) (arr : Array) (field : FieldAssociation)
        (i : ActiveArrayInfo) :
  get_array old_name p s = Ok (arr, field) s ->
  active_scalars_info s = Ok i s0 ->
  name i <> Some old_name ->
  exists s',
    rename_array apply_status old_name new_name p s = Ok tt s' /\
    lookup new_name (arrays (attributes field s')) = Some arr /\
    keys (attributes field s') =
      (let others := filter (fun k => negb (String.eqb k old_name))
                            (keys (attributes field s)) in
       if in_list new_name others then others
       else (others ++ [new_name])%list) /\
    _active_scalars_info s' = i /\
    _last_active_scalars_name s' = _last_active_scalars_name s.
Proof.
  intros Hg Hi Hn.
  destruct (get_array_Ok _ _ _ _ _ _ Hg) as [_ Hold].
  destruct (active_scalars_info_spec s) as (i0 & s0' & H0 & Hrec & Hsame).
  rewrite Hi in H0. injection H0 as <- <-.
  destruct Hsame as (Harr0 & _ & _ & Hlast & _).
  rewrite <- (Harr0 field) in Hold.
  destruct (move_array_Ok field old_name new_name arr s0 Hold)
    as (s1 & Hmove & Harr1 & _ & Hrec1 & Hlast1).
  exists s1. split.
  { unfold rename_array, bind, active_scalars_name. rewrite Hg. cbn [snd].
    unfold bind. rewrite Hi. unfold ret.
    assert (E : option_string_eqb (name i) (Some old_name) = false).
    { destruct (name i) as [n|]; [| reflexivity]. cbn.
      apply String.eqb_neq. congruence. }
    now rewrite E, Hmove. }
  split; [rewrite Harr1; apply lookup_assoc_set_same |].
  split.
  { unfold keys. rewrite Harr1. unfold moved.
    rewrite keys_assoc_set, keys_assoc_remove, (Harr0 field). reflexivity. }
  split; [now rewrite Hrec1 | now rewrite Hlast1].
Qed.

Lemma rename_array_inactive_witness :
  exists s',
    rename_array accept_all "Normals" "n" CELL point_normals = Ok tt s' /\
    lookup "n" (arrays (PointData s')) = Some [0; 0; 1]%Z /\
    keys (PointData s') = ["a"; "n"] /\
    _active_scalars_info s' = mkActiveArrayInfo POINT (Some "a") /\
    _last_active_scalars_name s' = None.
Proof.
  apply (rename_array_inactive accept_all "Normals" "n" CELL point_normals
           (write_active_scalars POINT "a"
              (set_active_scalars_info (mkActiveArrayInfo POINT (Some "a"))
                                       point_normals))
           [0; 0; 1]%Z POINT (mkActiveArrayInfo POINT (Some "a"))).
  - reflexivity.
  - reflexivity.
  - discriminate.
Defined.

(** X15.  When the name to rename is the active scalars and resolves to a
    field array, [rename_array] raises [InvalidField] only after the field
    array has been renamed: the new name holds the data, and the record
    still carries the old name. *)
Theorem rename_array_field_partial
        (apply_status : AttributeType -> DataSetAttributes -> string -> Z)
        (old_name new_name : string) (p : FieldAssociation)
        (s s0 : DataSet) (arr : Array) (i : ActiveArrayInfo) :
  get_array old_name p s = Ok (arr, NONE) s ->
  active_scalars_info s = Ok i s0 ->
  name i = Some old_name ->
  exists s',
    rename_array apply_status old_name new_name p s =
      Raise (InvalidField NONE) s' /\
    lookup new_name (arrays (FieldData s')) = Some arr /\
    (old_name <> new_name -> lookup old_name (arrays (FieldData s')) = None) /\
    name (_active_scalars_info s') = Some old_name.
Proof.
  intros Hg Hi Hn.
  destruct (get_array_Ok _ _ _ _ _ _ Hg) as [_ Hold].
  destruct (active_scalars_info_spec s) as (i0 & s0' & H0 & Hrec & Hsame).
  rewrite Hi in H0. injection H0 as <- <-.
  destruct Hsame as (Harr0 & _).
  rewrite <- (Harr0 NONE) in Hold.
  destruct (move_array_Ok NONE old_name new_name arr s0 Hold)
    as (s1 & Hmove & Harr1 & Hoth1 & Hrec1 & _).
  assert (Hnew1 : lookup new_name (arrays (attributes NONE s1)) = Some arr).
  { rewrite Harr1. apply lookup_assoc_set_same. }
  pose proof (get_array_preferred new_name NONE s1 arr Hnew1) as Hg1.
  (* the record still names [old_name], which the point or cell table holds *)
  assert (Hfresh : needs_resolution s1 = needs_resolution s0).
  { unfold needs_resolution, substituted_name, all_arrays.
    rewrite Hrec1.
    assert (Hl : _last_active_scalars_name s1 = _last_active_scalars_name s0).
    { now destruct (move_array_Ok NONE old_name new_name arr s0 Hold)
        as (s1' & Hm' & _ & _ & _ & Hl'); rewrite Hmove in Hm';
        injection Hm' as <-. }
    rewrite Hl.
    pose proof (Hoth1 POINT) as HP. pose proof (Hoth1 CELL) as HC.
    cbn [attributes] in HP, HC. unfold keys.
    rewrite HP, HC by discriminate. reflexivity. }
  destruct (active_scalars_info_resolved _ _ _ Hi) as [Hres0 _].
  assert (E0 : needs_resolution s0 = false \/ needs_resolution s0 = true)
    by (destruct (needs_resolution s0); auto).
  assert (Hname1 : exists i1 s2,
             active_scalars_info s1 = Ok i1 s2 /\
             name (_active_scalars_info s2) = Some old_name /\
             forall a, arrays (attributes a s2) = arrays (attributes a s1)).
  { destruct E0 as [E0 | E0].
    - exists (_active_scalars_info s1), s1.
      rewrite active_scalars_info_fresh by now rewrite Hfresh.
      split; [reflexivity |]. split; [| reflexivity].
      now rewrite Hrec1, Hrec.
    - (* the getter of [s0] already scanned, and scanning again finds the
         same first array, since field data is not scanned *)
      unfold resolved in Hres0. rewrite (active_scalars_info_stale s0 E0) in Hres0.
      rewrite (active_scalars_info_stale s1) by now rewrite Hfresh.
      pose proof (Hoth1 POINT) as HP. pose proof (Hoth1 CELL) as HC.
      cbn [attributes] in HP, HC. rewrite HP, HC by discriminate.
      rewrite Hrec1.
      destruct (first_arr (PointData s0)) as [a|].
      { injection Hres0 as Hr _. do 2 eexists. split; [reflexivity |].
        split; [| intros []; reflexivity].
        cbn. rewrite <- Hn, <- Hrec, <- Hr. reflexivity. }
      destruct (first_arr (CellData s0)) as [a|].
      { injection Hres0 as Hr _. do 2 eexists. split; [reflexivity |].
        split; [| intros []; reflexivity].
        cbn. rewrite <- Hn, <- Hrec, <- Hr. reflexivity. }
      injection Hres0 as Hr _. rewrite <- Hrec, <- Hr in Hn. discriminate. }
  destruct Hname1 as (i1 & s2 & Hi1 & Hn2 & Harr2).
  exists (set_last_active_scalars_name (name i1) s2). split.
  { unfold rename_array, bind, active_scalars_name. rewrite Hg. cbn [snd].
    unfold bind. rewrite Hi. unfold ret. rewrite Hn.
    cbn [option_string_eqb]. rewrite String.eqb_refl, Hmove.
    unfold set_active_scalars, bind. rewrite Hg1. cbn [snd].
    rewrite Hi1. reflexivity. }
  split.
  { change (FieldData (set_last_active_scalars_name (name i1) s2))
      with (attributes NONE s2). now rewrite Harr2. }
  split.
  { intros Hne.
    change (FieldData (set_last_active_scalars_name (name i1) s2))
      with (attributes NONE s2).
    rewrite Harr2, Harr1. unfold moved.
    rewrite lookup_assoc_set_other by exact Hne.
    apply lookup_assoc_remove_same. }
  exact Hn2.
Qed.

Lemma rename_array_field_partial_witness :
  exists s',
    rename_array accept_all "a" "b" NONE point_and_field =
      Raise (InvalidField NONE) s' /\
    lookup "b" (arrays (FieldData s')) = Some [9]%Z /\
    lookup "a" (arrays (FieldData s')) = None /\
    name (_active_scalars_info s') = Some "a".
Proof.
  destruct (rename_array_field_partial accept_all "a" "b" NONE
              point_and_field point_and_field [9]%Z
              (mkActiveArrayInfo POINT (Some "a")))
    as (s' & H1 & H2 & H3 & H4).
  - reflexivity.
  - reflexivity.
  - reflexivity.
  - exists s'. split; [exact H1 |]. split; [exact H2 |].
    split; [apply H3; discriminate | exact H4].
Defined.

(** ** Textures *)

Lemma py_index_nonneg {A} (l : list A) (n : nat) :
  py_index l (Z.of_nat n) = nth_error l n.
Proof.
  unfold py_index.
  assert (H : (0 <=? Z.of_nat n)%Z = true) by (apply Z.leb_le; lia).
  now rewrite H, Nat2Z.id.
Qed.

Lemma texture_lookup_nth (l : list (string * Texture)) (n : nat)
      (k : string) (t : Texture) :
  NoDup (map fst l) ->
  nth_error l n = Some (k, t) ->
  texture_lookup k l = Some t.
Proof.
  revert n. induction l as [|[k0 t0] l IH]; intros n Hnd Hn.
  - destruct n; discriminate.
  - cbn [texture_lookup]. destruct n as [|n]; cbn [nth_error] in Hn.
    + injection Hn as -> ->. now rewrite String.eqb_refl.
    + cbn [map fst] in Hnd. inversion Hnd as [|? ? Hnotin Hnd']. subst.
      destruct (String.eqb k0 k) eqn:E.
      * apply String.eqb_eq in E. subst k0. exfalso. apply Hnotin.
        apply nth_error_In in Hn.
        change k with (fst (k, t)). now apply in_map.
      * now apply (IH n).
Qed.

Section TextureProperties.

Variable swap_tcoords : string -> DataSet -> DataSet.

(** The texture [_activate_texture] returns depends on the texture table
    alone, and a call that returns no texture changes nothing. *)
Lemma activate_texture_returns (tn : TextureName) (s : DataSet) :
  exists s',
    _activate_texture swap_tcoords tn s =
      Ok (match texture_key tn (_textures s) with
          | Some key => texture_lookup key (_textures s)
          | None => None
          end) s' /\
    ((match texture_key tn (_textures s) with
      | Some key => texture_lookup key (_textures s)
      | None => None
      end) = None -> s' = s).
Proof.
  unfold _activate_texture.
  destruct (texture_key tn (_textures s)) as [key|].
  - destruct (texture_lookup key (_textures s)) as [t|].
    + destruct (array_names_spec s) as (i & s0 & _ & Hn & _).
      unfold bind. rewrite Hn.
      destruct (in_list key (move_to_front (name i) (table_names s)));
        eexists; (split; [reflexivity | discriminate]).
    + exists s. split; reflexivity.
  - exists s. split; reflexivity.
Qed.

Lemma texture_key_lookup (tn : TextureName) (l : list (string * Texture))
      (m : nat) (key : string) (t : Texture) :
  NoDup (map fst l) ->
  texture_key tn l = nth_error (map fst l) m ->
  nth_error l m = Some (key, t) ->
  match texture_key tn l with
  | Some k => texture_lookup k l
  | None => None
  end = Some t.
Proof.
  intros Hnd Hk Hn. rewrite Hk.
  rewrite (map_nth_error fst m l Hn). cbn [fst].
  exact (texture_lookup_nth l m key t Hnd Hn).
Qed.

(** X16.  How [_activate_texture] reads an integer or [True]: [True] and 0
    stand for the first texture; an index below the number of textures
    stands for the texture at that place; the number of textures itself
    names no texture, so [None] is returned and nothing changes; a larger
    index is reset to the first texture; a negative index counts from the
    end, and one below minus the number of textures returns [None]. *)
Theorem activate_texture_by_index (s : DataSet) :
  NoDup (map fst (_textures s)) ->
  let n := Z.of_nat (length (_textures s)) in
  (forall m key t,
     nth_error (_textures s) m = Some (key, t) ->
     exists s',
       _activate_texture swap_tcoords (NameInt (Z.of_nat m)) s
         = Ok (Some t) s') /\
  (forall key t,
     nth_error (_textures s) 0 = Some (key, t) ->
     (exists s', _activate_texture swap_tcoords NameTrue s = Ok (Some t) s') /\
     (forall z, (n < z)%Z ->
        exists s',
          _activate_texture swap_tcoords (NameInt z) s = Ok (Some t) s')) /\
  _activate_texture swap_tcoords (NameInt n) s = Ok None s /\
  (forall z m key t,
     (z < 0)%Z -> (0 <= n + z)%Z -> m = Z.to_nat (n + z) ->
     nth_error (_textures s) m = Some (key, t) ->
     exists s',
       _activate_texture swap_tcoords (NameInt z) s = Ok (Some t) s') /\
  (forall z, (z < - n)%Z ->
     _activate_texture swap_tcoords (NameInt z) s = Ok None s) /\
  (_textures s = [] ->
   forall tn, _activate_texture swap_tcoords tn s = Ok None s).
Proof.
  intros Hnd n.
  assert (Hlen : length (map fst (_textures s)) = length (_textures s))
    by apply length_map.
  assert (Some_case : forall tn m key t,
             texture_key tn (_textures s) = nth_error (map fst (_textures s)) m ->
             nth_error (_textures s) m = Some (key, t) ->
             exists s', _activate_texture swap_tcoords tn s = Ok (Some t) s').
  { intros tn m key t Hk Hn.
    destruct (activate_texture_returns tn s) as (s' & H & _).
    rewrite (texture_key_lookup tn _ m key t Hnd Hk Hn) in H. now exists s'. }
  assert (None_case : forall tn,
             texture_key tn (_textures s) = None ->
             _activate_texture swap_tcoords tn s = Ok None s).
  { intros tn Hk. unfold _activate_texture. now rewrite Hk. }
  split; [| split; [| split; [| split; [| split]]]].
  - intros m key t Hn. apply (Some_case _ m key t); [| exact Hn].
    assert (Hm : (m < length (_textures s))%nat).
    { apply nth_error_Some. congruence. }
    cbn [texture_key]. rewrite Hlen.
    assert (E : (Z.of_nat (length (_textures s)) <? Z.of_nat m)%Z = false)
      by (apply Z.ltb_ge; lia).
    rewrite E. apply py_index_nonneg.
  - intros key t Hn. split.
    + apply (Some_case _ 0%nat key t); [| exact Hn]. reflexivity.
    + intros z Hz. apply (Some_case _ 0%nat key t); [| exact Hn].
      cbn [texture_key]. rewrite Hlen.
      assert (E : (Z.of_nat (length (_textures s)) <? z)%Z = true)
        by (apply Z.ltb_lt; exact Hz).
      now rewrite E.
  - apply None_case. cbn [texture_key]. rewrite Hlen. fold n.
    rewrite Z.ltb_irrefl. unfold n. rewrite py_index_nonneg.
    apply nth_error_None. lia.
  - intros z m key t Hz Hz' -> Hn.
    apply (Some_case _ (Z.to_nat (n + z)) key t); [| exact Hn].
    cbn [texture_key]. rewrite Hlen. fold n.
    assert (E : (n <? z)%Z = false) by (apply Z.ltb_ge; lia).
    rewrite E. unfold py_index. rewrite Hlen. fold n.
    assert (E1 : (0 <=? z)%Z = false) by (apply Z.leb_gt; lia).
    assert (E2 : (0 <=? n + z)%Z = true) by (apply Z.leb_le; lia).
    now rewrite E1, E2.
  - intros z Hz. apply None_case.
    cbn [texture_key]. rewrite Hlen. fold n.
    assert (E : (n <? z)%Z = false) by (apply Z.ltb_ge; lia).
    rewrite E. unfold py_index. rewrite Hlen. fold n.
    assert (E1 : (0 <=? z)%Z = false) by (apply Z.leb_gt; lia).
    assert (E2 : (0 <=? n + z)%Z = false) by (apply Z.leb_gt; lia).
    now rewrite E1, E2.
  - intros Hnil tn. unfold _activate_texture. rewrite Hnil.
    destruct tn as [|z|key]; cbn [texture_key map length].
    + reflexivity.
    + destruct (Z.of_nat 0 <? z)%Z.
      * reflexivity.
      * unfold py_index. cbn [length].
        destruct (0 <=? z)%Z; [now destruct (Z.to_nat z) |].
        destruct (0 <=? Z.of_nat 0 + z)%Z;
          [now destruct (Z.to_nat (Z.of_nat 0 + z)) | reflexivity].
    + reflexivity.
Qed.

(** X17.  Called with a string, [_activate_texture] returns the texture
    stored under that name; for a name that stores none it returns [None]
    and changes nothing, and so it does for every name once
    [clear_textures] has run. *)
Theorem activate_texture_by_name (key : string) (s : DataSet) :
  (forall t, texture_lookup key (_textures s) = Some t ->
     exists s', _activate_texture swap_tcoords (NameStr key) s
                = Ok (Some t) s') /\
  (texture_lookup key (_textures s) = None ->
   _activate_texture swap_tcoords (NameStr key) s = Ok None s) /\
  (forall tn s1,
     clear_textures s = Ok tt s1 ->
     _textures s1 = [] /\
     _activate_texture swap_tcoords tn s1 = Ok None s1).
Proof.
  split; [| split].
  - intros t Ht. destruct (activate_texture_returns (NameStr key) s)
      as (s' & H & _).
    cbn [texture_key] in H. rewrite Ht in H. now exists s'.
  - intros Hn. unfold _activate_texture. cbn [texture_key]. now rewrite Hn.
  - intros tn s1 [= <-]. split; [reflexivity |].
    unfold _activate_texture.
    cbn [_textures set_textures].
    destruct tn as [|z|k]; cbn [texture_key map length].
    + reflexivity.
    + destruct (Z.of_nat 0 <? z)%Z.
      * reflexivity.
      * unfold py_index. cbn [length].
        destruct (0 <=? z)%Z; [now destruct (Z.to_nat z) |].
        destruct (0 <=? Z.of_nat 0 + z)%Z;
          [now destruct (Z.to_nat (Z.of_nat 0 + z)) | reflexivity].
    + reflexivity.
Qed.

End TextureProperties.

Lemma two_textures_NoDup : NoDup (map fst (_textures two_textures)).
Proof.
  cbn. constructor.
  - intros [H | []]. discriminate H.
  - constructor; [intros [] | constructor].
Qed.

Lemma activate_texture_by_index_witness :
  (exists s', _activate_texture no_swap (NameInt 1) two_textures
              = Ok (Some (mkTexture [2]%Z)) s') /\
  _activate_texture no_swap (NameInt 2) two_textures = Ok None two_textures /\
  (exists s', _activate_texture no_swap (NameInt 5) two_textures
              = Ok (Some (mkTexture [1]%Z)) s') /\
  (exists s', _activate_texture no_swap (NameInt (-1)) two_textures
              = Ok (Some (mkTexture [2]%Z)) s') /\
  _activate_texture no_swap (NameInt (-3)) two_textures = Ok None two_textures.
Proof.
  destruct (activate_texture_by_index no_swap two_textures two_textures_NoDup)
    as (H1 & H2 & H3 & H4 & H5 & _).
  split; [apply (H1 1%nat "t1"); reflexivity |].
  split; [exact H3 |].
  split; [apply (proj2 (H2 "t0" (mkTexture [1]%Z) eq_refl)); cbn; lia |].
  split; [apply (H4 (-1)%Z 1%nat "t1"); cbn; try lia; reflexivity |].
  apply H5. cbn. lia.
Defined.

Lemma activate_texture_by_name_witness :
  (exists s', _activate_texture no_swap (NameStr "t1") two_textures
              = Ok (Some (mkTexture [2]%Z)) s') /\
  _activate_texture no_swap (NameStr "zz") two_textures = Ok None two_textures /\
  _activate_texture no_swap (NameStr "t1") (set_textures [] two_textures)
    = Ok None (set_textures [] two_textures).
Proof.
  destruct (activate_texture_by_name no_swap "t1" two_textures)
    as (H1 & _ & H3).
  destruct (activate_texture_by_name no_swap "zz" two_textures)
    as (_ & H2 & _).
  split; [apply H1; reflexivity |].
  split; [apply H2; reflexivity |].
  apply (H3 (NameStr "t1") (set_textures [] two_textures)). reflexivity.
Defined.

(** ** More on [copy_meta_from] *)

Section CopyMeta.

Variable apply_status : AttributeType -> DataSetAttributes -> string -> Z.

(** X18.  A dataset that copies its metadata from itself loses its
    textures: when [copy_meta_from(self)] returns, the texture table is
    empty, whatever it held before. *)
Theorem copy_meta_from_self_clears_textures (self : nat) (h h' : Heap) :
  copy_meta_from apply_status self self h = HOk tt h' ->
  _textures (h' self) = [].
Proof.
  intros H.
  destruct (copy_meta_from_pointwise apply_status self self h)
    as (asi & s1 & _ & Hm).
  destruct (active_vectors_info apply_status s1) as [avi s3|e s3].
  - destruct Hm as (h0 & H0 & Hj). rewrite H in H0. injection H0 as <-.
    rewrite (Hj self). unfold meta_copied. rewrite Nat.eqb_refl. reflexivity.
  - destruct Hm as (h0 & H0 & _). rewrite H in H0. discriminate.
Qed.

Lemma set_active_vectors_arrays (n : option string)
      (p : FieldAssociation) (s : DataSet) :
  (forall a, arrays (attributes a
               (final_state (set_active_vectors apply_status n p s)))
             = arrays (attributes a s)).
Proof.
  intros a. destruct n as [key|].
  - unfold set_active_vectors, set_active_role, bind.
    pose proof (get_array_final key p s) as Hfin.
    destruct (get_array key p s) as [[arr field] s0|e s0];
      cbn [final_state] in Hfin; subst s0; [| reflexivity].
    cbn [snd]. destruct field; unfold SetActiveAttribute, raise;
      try reflexivity.
    + destruct (apply_status VECTORS (attributes POINT s) key <? 0)%Z eqn:E;
        rewrite ?E; destruct a; reflexivity.
    + destruct (apply_status VECTORS (attributes CELL s) key <? 0)%Z eqn:E;
        rewrite ?E; destruct a; reflexivity.
  - rewrite set_active_vectors_None. destruct a; reflexivity.
Qed.

(** Neither getter adds, removes or replaces an array. *)
Lemma active_vectors_info_arrays (s : DataSet) (a : FieldAssociation) :
  arrays (attributes a (final_state (active_vectors_info apply_status s)))
  = arrays (attributes a s).
Proof.
  destruct (name (_active_vectors_info s)) as [n|] eqn:En.
  - rewrite active_vectors_info_recorded by congruence. reflexivity.
  - destruct (active_vectors_info_unrecorded apply_status s En)
      as (i & s0 & _ & Hsame & ->).
    destruct Hsame as (Harr & _).
    destruct (in_list "Normals" (table_names s)).
    + pose proof (set_active_vectors_arrays (Some "Normals") POINT s0 a)
        as Hf.
      destruct (set_active_vectors apply_status (Some "Normals") POINT s0)
        as [u s1|e s1]; cbn [final_state] in *; now rewrite Hf.
    + cbn [final_state]. apply Harr.
Qed.

(** X19.  [copy_meta_from] copies records and textures only: whether it
    returns or raises, every array table of every dataset holds what it
    held, a dataset other than source and destination is untouched, and a
    source other than the destination keeps its textures. *)
Theorem copy_meta_from_frame (self ido : nat) (h : Heap) :
  let h' := hfinal (copy_meta_from apply_status self ido h) in
  (forall j a, arrays (attributes a (h' j)) = arrays (attributes a (h j))) /\
  (forall j, j <> self -> j <> ido -> h' j = h j) /\
  (self <> ido -> _textures (h' ido) = _textures (h ido)).
Proof.
  destruct (copy_meta_from_pointwise apply_status self ido h)
    as (asi & s1 & Hi & Hm).
  destruct (active_scalars_info_spec (h ido)) as (asi' & s1' & Hi' & _ & Hs1).
  rewrite Hi in Hi'. injection Hi' as <- <-.
  destruct Hs1 as (Harr1 & _ & _ & _ & _ & _ & Hx1).
  pose proof (active_vectors_info_arrays s1) as Harr3.
  destruct (active_scalars_info_resolved _ _ _ Hi) as [Hres1 _].
  destruct (active_vectors_info_frame apply_status s1 Hres1) as [Hf _].
  destruct (active_vectors_info apply_status s1) as [avi s3|e s3];
    cbn [final_state] in Harr3, Hf; destruct Hf as (_ & _ & Hx3);
    destruct Hm as (h0 & -> & Hj); cbn [hfinal]; (split; [| split]).
  - intros j a. rewrite (Hj j). unfold meta_copied.
    destruct (Nat.eqb j self) eqn:Ej.
    + apply Nat.eqb_eq in Ej. subst j.
      destruct (Nat.eqb self ido) eqn:E.
      * apply Nat.eqb_eq in E. subst ido.
        transitivity (arrays (attributes a s3));
          [destruct a; reflexivity | now rewrite Harr3, Harr1].
      * destruct a; reflexivity.
    + destruct (Nat.eqb j ido) eqn:E; [| reflexivity].
      apply Nat.eqb_eq in E. subst j. now rewrite Harr3, Harr1.
  - intros j H1 H2. rewrite (Hj j).
    apply Nat.eqb_neq in H1. apply Nat.eqb_neq in H2. now rewrite H1, H2.
  - intros Hne. rewrite (Hj ido).
    assert (E : Nat.eqb ido self = false) by (apply Nat.eqb_neq; congruence).
    rewrite E, Nat.eqb_refl. now rewrite Hx3, Hx1.
  - intros j a. rewrite (Hj j).
    destruct (Nat.eqb j ido) eqn:E.
    + apply Nat.eqb_eq in E. subst j. now rewrite Harr3, Harr1.
    + destruct (Nat.eqb j self) eqn:Ej; [| reflexivity].
      apply Nat.eqb_eq in Ej. subst j. destruct a; reflexivity.
  - intros j H1 H2. rewrite (Hj j).
    apply Nat.eqb_neq in H1. apply Nat.eqb_neq in H2. now rewrite H1, H2.
  - intros Hne. rewrite (Hj ido). rewrite Nat.eqb_refl. now rewrite Hx3, Hx1.
Qed.

End CopyMeta.

Lemma copy_meta_from_self_clears_textures_witness :
  let r := copy_meta_from accept_all 0 0 (fun _ => two_textures) in
  r = HOk tt (hfinal r) /\ _textures (hfinal r 0) = [].
Proof.
  intros r.
  assert (E : r = HOk tt (hfinal r)) by (vm_compute; reflexivity).
  split; [exact E |].
  exact (copy_meta_from_self_clears_textures accept_all 0
           (fun _ => two_textures) (hfinal r) E).
Defined.

Lemma copy_meta_from_frame_witness :
  let h' := hfinal (copy_meta_from accept_all 0 1 two_datasets) in
  h' 2 = two_datasets 2 /\
  _textures (h' 1) = _textures (two_datasets 1) /\
  arrays (PointData (h' 0)) = arrays (PointData (two_datasets 0)).
Proof.
  intros h'.
  destruct (copy_meta_from_frame accept_all 0 1 two_datasets)
    as (Ha & Hj & Hx).
  split; [apply Hj; discriminate |].
  split; [apply Hx; discriminate | exact (Ha 0 POINT)].
Defined.

(** ** The vectors getter resolves the active scalars *)

(** X20.  Evaluating [active_vectors_info] on a dataset with no recorded
    vectors name resolves the active scalars on the way, whether or not an
    array named ["Normals"] exists and whether or not the call raises:
    afterwards the active-scalars record is the info that
    [active_scalars_info] returns on the dataset.  With a recorded vectors
    name the getter changes nothing. *)
Theorem active_vectors_info_resolves_scalars
        (apply_status : AttributeType -> DataSetAttributes -> string -> Z)
        (s : DataSet) :
  (name (_active_vectors_info s) = None ->
   exists i s0,
     active_scalars_info s = Ok i s0 /\
     _active_scalars_info
       (final_state (active_vectors_info apply_status s)) = i) /\
  (name (_active_vectors_info s) <> None ->
   final_state (active_vectors_info apply_status s) = s).
Proof.
  split.
  - intros Hn.
    destruct (active_vectors_info_unrecorded apply_status s Hn)
      as (i & s0 & Hi & _ & ->).
    exists i, s0. split; [exact Hi |].
    destruct (active_scalars_info_resolved _ _ _ Hi) as [_ Hrec].
    destruct (in_list "Normals" (table_names s)).
    + pose proof (set_active_vectors_frame apply_status (Some "Normals")
                    POINT s0) as (Hf & _).
      destruct (set_active_vectors apply_status (Some "Normals") POINT s0)
        as [u s1|e s1]; cbn [final_state] in *; now rewrite Hf.
    + exact Hrec.
  - intros Hn. now rewrite active_vectors_info_recorded.
Qed.

Lemma active_vectors_info_resolves_scalars_witness :
  _active_scalars_info one_point_array = mkActiveArrayInfo POINT None /\
  exists i s0,
    active_scalars_info one_point_array = Ok i s0 /\
    _active_scalars_info
      (final_state (active_vectors_info accept_all one_point_array)) = i.
Proof.
  split; [reflexivity |].
  apply (proj1 (active_vectors_info_resolves_scalars accept_all
                  one_point_array)).
  reflexivity.
Defined.

(** ** The last-active name *)

(** X21.  Two activations in a row: after [set_active_scalars(a)] for an
    unreserved name and then [set_active_scalars(b)], each accepted by the
    table it is asked of, the record names [b] and the last-active name is
    [a]. *)
Theorem set_active_scalars_twice
        (apply_status : AttributeType -> DataSetAttributes -> string -> Z)
        (a b : string) (pa pb : FieldAssociation) (s : DataSet)
        (arra : Array) (fa : FieldAssociation) :
  get_array a pa s = Ok (arra, fa) s -> fa <> NONE ->
  ~ reserved a ->
  (0 <= apply_status SCALARS (attributes fa (after_scalars_getter s)) a)%Z ->
  exists s1,
    set_active_scalars apply_status (Some a) pa s = Ok tt s1 /\
    forall arrb fb,
      get_array b pb s1 = Ok (arrb, fb) s1 -> fb <> NONE ->
      (0 <= apply_status SCALARS (attributes fb s1) b)%Z ->
      exists s2,
        (set_active_scalars apply_status (Some a) pa ;;;
         set_active_scalars apply_status (Some b) pb) s = Ok tt s2 /\
        _active_scalars_info s2 = mkActiveArrayInfo fb (Some b) /\
        _last_active_scalars_name s2 = Some a.
Proof.
  intros Hga Hfa Hres Hacca.
  destruct (get_array_Ok _ _ _ _ _ _ Hga) as [_ Hla].
  destruct (active_scalars_info_spec s) as (i & s0 & Hi & _ & Hsame).
  destruct Hsame as (Harr0 & _).
  unfold after_scalars_getter in Hacca. rewrite Hi in Hacca.
  cbn [final_state] in Hacca.
  pose proof (set_active_scalars_accepted apply_status a pa s s0 arra fa i
                Hga Hfa Hi Hacca) as H1.
  set (s1 := activated fa a i s0) in *.
  exists s1. split; [exact H1 |].
  intros arrb fb Hgb1 Hfb Haccb.
  assert (Harr1 : forall t, arrays (attributes t s1) = arrays (attributes t s)).
  { intros t. unfold s1. now rewrite activated_arrays, Harr0. }
  assert (Hi1 : active_scalars_info s1 = Ok (mkActiveArrayInfo fa (Some a)) s1).
  { rewrite active_scalars_info_fresh; [reflexivity |].
    apply (recorded_present_fresh _ fa a); [reflexivity | exact Hres |].
    apply (In_keys_all_arrays fa a arra); [exact Hfa |].
    now rewrite Harr1. }
  pose proof (set_active_scalars_accepted apply_status b pb s1 s1 arrb fb _
                Hgb1 Hfb Hi1 Haccb) as H2.
  eexists. split.
  - unfold bind at 1. rewrite H1. exact H2.
  - split; destruct fb; reflexivity.
Qed.

Lemma set_active_scalars_twice_witness :
  exists s2,
    (set_active_scalars accept_held (Some "a") CELL ;;;
     set_active_scalars accept_held (Some "b") CELL) resolved_b = Ok tt s2 /\
    _active_scalars_info s2 = mkActiveArrayInfo POINT (Some "b") /\
    _last_active_scalars_name s2 = Some "a".
Proof.
  destruct (set_active_scalars_twice accept_held "a" "b" CELL CELL resolved_b
              [2]%Z POINT) as (s1 & H1 & H2).
  - reflexivity.
  - discriminate.
  - unfold reserved. rewrite <- in_list_In. discriminate.
  - vm_compute. discriminate.
  - assert (E : s1 = activated POINT "a" (mkActiveArrayInfo POINT (Some "b"))
                       resolved_b).
    { assert (H : set_active_scalars accept_held (Some "a") CELL resolved_b
                  = Ok tt (activated POINT "a"
                             (mkActiveArrayInfo POINT (Some "b")) resolved_b))
        by reflexivity.
      rewrite H1 in H. now injection H. }
    subst s1. apply (H2 [1]%Z POINT).
    + reflexivity.
    + discriminate.
    + vm_compute. discriminate.
Defined.
